(** * LiteX SoC integration layer: bus regions, CSR locations, IRQ lines

    A shallow embedding of [litex/soc/integration/soc.py]: the classes
    [SoCRegion], [SoCBus], [SoCCSR] and [SoCIRQ].  Python integers are
    unbounded, so they are [Z]; attributes that may hold [None] are
    [option]; Python dictionaries keep their insertion order, which the
    overlap check and the region search both observe, so they are
    association lists updated in place. *)

From Stdlib Require Import ZArith List String Bool Lia Arith.
From Stdlib Require Import Decimal DecimalString.
From Stdlib Require DecimalNat.
Import ListNotations.

Local Open Scope Z_scope.

(** ** Exceptions

    Every failure of the source is a bare [raise] that follows a logged
    message; the constructors below name the raise sites after the message
    they log.  The [Py...] constructors are the exceptions the interpreter
    itself raises (an operation on [None], an unbound variable, a missing
    attribute).  [OutOfFuel] belongs to the model only: it marks a loop
    that was cut short, and [alloc_region_terminates] shows that it is
    never produced. *)

Inductive error : Type :=
| ConfigurationError
| AlignmentError
| OverlapError (n0 n1 : string)
| UnsupportedRegionError
| OutOfSpaceError
| DuplicateNameError (name : string)
| LocationInUseError
| RangeError
| RegionNotFoundError
| MissingArgumentError
| PyTypeError
| PyValueError
| PyKeyError
| PyNameError (var : string)
| PyUnboundLocalError (var : string)
| PyAttributeError (attr : string)
| OutOfFuel.

(** A computation that reads but does not write the object. *)
Inductive result (A : Type) : Type :=
| Ok (a : A)
| Err (e : error).

Arguments Ok {A} a.
Arguments Err {A} e.

(** A method call on an object of type [S]: it returns normally with a
    value and the object as the call left it, or it raises, and then too
    the object stays as the call left it (nothing is undone). *)
Inductive outcome (S A : Type) : Type :=
| Return (a : A) (self : S)
| Raise (e : error) (self : S).

Arguments Return {S A} a self.
Arguments Raise {S A} e self.

Definition py (S A : Type) : Type := S -> outcome S A.

Definition ret {S A : Type} (a : A) : py S A := fun self => Return a self.

Definition throw {S A : Type} (e : error) : py S A := fun self => Raise e self.

Definition bind {S A B : Type} (m : py S A) (k : A -> py S B) : py S B :=
  fun self =>
    match m self with
    | Return a self' => k a self'
    | Raise e self' => Raise e self'
    end.

Definition gets {S A : Type} (f : S -> A) : py S A := fun self => Return (f self) self.

Definition modify {S : Type} (f : S -> S) : py S unit := fun self => Return tt (f self).

Definition lift {S A : Type} (r : result A) : py S A :=
  fun self =>
    match r with
    | Ok a => Return a self
    | Err e => Raise e self
    end.

Definition rbind {A B : Type} (r : result A) (k : A -> result B) : result B :=
  match r with
  | Ok a => k a
  | Err e => Err e
  end.

Declare Scope py_scope.
Delimit Scope py_scope with py.
Notation "x <- m ;; k" := (bind m (fun x => k))
  (at level 61, m at next level, right associativity) : py_scope.
Notation "m ;;; k" := (bind m (fun _ => k))
  (at level 61, right associativity) : py_scope.
Notation "'let?' x := r 'in' k" := (rbind r (fun x => k))
  (at level 61, x name, r at next level, right associativity).

(** [for x in l: body(x)] *)
Fixpoint for_each {S A : Type} (l : list A) (body : A -> py S unit) : py S unit :=
  match l with
  | [] => ret tt
  | x :: l' => bind (body x) (fun _ => for_each l' body)
  end.

(** ** Dictionaries with string keys, in insertion order *)

Module Dict.
Section Dict.
Context {V : Type}.

Definition t : Type := list (string * V).

Definition empty : t := [].

(** [d.get(k)] *)
Fixpoint get (k : string) (d : t) : option V :=
  match d with
  | [] => None
  | (k', v) :: d' => if String.eqb k k' then Some v else get k d'
  end.

(** [d[k] = v]: an existing key keeps its place, a new one goes last. *)
Fixpoint set (k : string) (v : V) (d : t) : t :=
  match d with
  | [] => [(k, v)]
  | (k', v') :: d' =>
      if String.eqb k k' then (k, v) :: d' else (k', v') :: set k v d'
  end.

(** The place [set k] writes to. *)
Fixpoint index (k : string) (d : t) : nat :=
  match d with
  | [] => O
  | (k', _) :: d' => if String.eqb k k' then O else S (index k d')
  end.

Definition keys (d : t) : list string := map fst d.

Definition values (d : t) : list V := map snd d.

(** [k in d.keys()] *)
Definition mem (k : string) (d : t) : bool := existsb (String.eqb k) (keys d).

Definition len (d : t) : nat := List.length d.
End Dict.
Arguments t V : clear implicits.
End Dict.

(** [None + x], [x + None] raise a [TypeError], as does comparing with [None]. *)
Definition py_add (a b : option Z) : result Z :=
  match a, b with
  | Some x, Some y => Ok (x + y)
  | _, _ => Err PyTypeError
  end.

Definition py_ge (a : option Z) (b : Z) : result bool :=
  match a with
  | Some x => Ok (x >=? b)
  | None => Err PyTypeError
  end.

(** [str(n)] for a natural number. *)
Definition decimal (n : nat) : string := NilZero.string_of_uint (Nat.to_uint n).

(** ** migen: [log2_int], signals, slices

    [from migen import *] brings [log2_int] and the signals the decoder's
    predicate is applied to.  [log2_int(n, need_pow2)] is
    [0] for [n == 0], and otherwise [r = (n - 1).bit_length()], with a
    [ValueError] when a power of two is asked for and [1 << r != n]. *)

Definition bit_length (n : Z) : Z :=
  if n =? 0 then 0 else Z.log2 (Z.abs n) + 1.

Definition log2_int (n : Z) (need_pow2 : bool) : result Z :=
  if n =? 0 then Ok 0
  else
    let r := bit_length (n - 1) in
    if need_pow2 && negb (Z.shiftl 1 r =? n) then Err PyValueError else Ok r.

(** A signal of [nbits] bits carrying [value]. *)
Record Signal : Type := mkSignal { nbits : Z; value : Z }.

(** [a[start:stop]] for [0 <= start]: Python's [slice.indices] clips
    [start] to the width and counts a negative [stop] from the top; the
    slice holds bits [start .. stop-1] of the signal. *)
Definition slice_indices (n start stop : Z) : Z * Z :=
  let start' := Z.min start n in
  let stop' := if stop <? 0 then Z.max (stop + n) 0 else Z.min stop n in
  (start', stop').

Definition slice (a : Signal) (start stop : Z) : Z :=
  let '(lo, hi) := slice_indices (nbits a) start stop in
  if hi <=? lo then 0 else Z.land (Z.shiftr (value a) lo) (Z.ones (hi - lo)).

(** ** SoCRegion *)

Module SoCRegion.

(** The class of a region object: [SoCRegion] itself or its subclass
    [SoCLinkerRegion]. *)
Inductive region_class : Type :=
| Physical
| Linker.

Record t : Type := mk {
  kind : region_class;
  origin : option Z;
  size : option Z;
  cached : bool
}.

Definition is_linker (r : t) : bool :=
  match kind r with
  | Linker => true
  | Physical => false
  end.

(** [SoCRegion.decoder].  The lambda it returns is applied to the address
    signal of a bus master; [a[k:-1] == c] compares the value of the slice
    with the constant. *)
Definition decoder (self : t) : result (Signal -> result bool) :=
  match origin self, size self with
  | Some origin, Some size =>
      let origin := Z.land origin (Z.lnot 0x80000000) in
      let? r := log2_int size false in
      let size := 2 ^ r in
      if negb (Z.land origin (size - 1) =? 0) then Err AlignmentError
      else
        let origin := Z.shiftr origin 2 in
        let size := Z.shiftr size 2 in
        Ok (fun a =>
              let? k := log2_int size true in
              let? k' := log2_int size true in
              Ok (slice a k (-1) =? Z.shiftr origin k'))
  | _, _ => Err PyTypeError
  end.

End SoCRegion.

(** ** SoCBus *)

(** An object handed to the bus as a master or a slave; the bus stores it
    and never looks inside.  [None] is Python's [None].  The bus stores
    its [timeout] the same way, without computing on it; it is kept as a
    number of cycles. *)
Definition handle : Type := option nat.

(** What a caller may pass where a region is expected. *)
Inductive value_arg : Type :=
| VInt (z : Z)
| VRegion (r : SoCRegion.t)
| VOther.

Module SoCBus.

Record t : Type := mk {
  standard : string;
  data_width : Z;
  address_width : Z;
  masters : Dict.t handle;
  slaves : Dict.t handle;
  regions : Dict.t SoCRegion.t;
  timeout : Z
}.

Definition supported_standard : list string := ["wishbone"%string].
Definition supported_data_width : list Z := [32; 64].
Definition supported_address_width : list Z := [32].

Definition with_regions (self : t) (r : Dict.t SoCRegion.t) : t :=
  mk (standard self) (data_width self) (address_width self)
        (masters self) (slaves self) r (timeout self).

Definition with_slaves (self : t) (s : Dict.t handle) : t :=
  mk (standard self) (data_width self) (address_width self)
        (masters self) s (regions self) (timeout self).

Definition with_masters (self : t) (m : Dict.t handle) : t :=
  mk (standard self) (data_width self) (address_width self)
        m (slaves self) (regions self) (timeout self).

(** The body of the inner loop of [check_region] for one pair: [true] when
    the pair is reported, [false] when one of the three [continue]s is
    taken. *)
Definition pair_overlaps (r0 r1 : SoCRegion.t) : result bool :=
  if SoCRegion.is_linker r0 || SoCRegion.is_linker r1 then Ok false
  else
    let? end1 := py_add (SoCRegion.origin r1) (SoCRegion.size r1) in
    let? before := py_ge (SoCRegion.origin r0) end1 in
    if before then Ok false
    else
      let? end0 := py_add (SoCRegion.origin r0) (SoCRegion.size r0) in
      let? after := py_ge (SoCRegion.origin r1) end0 in
      if after then Ok false else Ok true.

(** [for n1 in list(regions.keys())[i+1:]] *)
Fixpoint check_against (r0 : SoCRegion.t) (rest : Dict.t SoCRegion.t) : result (option string) :=
  match rest with
  | [] => Ok None
  | (n1, r1) :: rest' =>
      let? hit := pair_overlaps r0 r1 in
      if hit then Ok (Some n1) else check_against r0 rest'
  end.

(** [SoCBus.check_region]: the first overlapping pair in dictionary order. *)
Fixpoint check_region (regions : Dict.t SoCRegion.t) : result (option (string * string)) :=
  match regions with
  | [] => Ok None
  | (n0, r0) :: rest =>
      let? found := check_against r0 rest in
      match found with
      | Some n1 => Ok (Some (n0, n1))
      | None => check_region rest
      end
  end.

(** The first loop of [alloc_region].  Its body assigns to
    [uncached_regions[name]], but the loop binds [_] and [region]: [name]
    is bound neither in the method nor in the module, so reaching the
    assignment raises a [NameError]. *)
Fixpoint collect_uncached (items : Dict.t SoCRegion.t) (uncached_regions : Dict.t SoCRegion.t)
  : result (Dict.t SoCRegion.t) :=
  match items with
  | [] => Ok uncached_regions
  | (_, region) :: items' =>
      if negb (SoCRegion.cached region) then Err (PyNameError "name")
      else collect_uncached items' uncached_regions
  end.

(** [for _, allocated in self.regions.items()] inside the search: the end
    of the first registered region the candidate collides with. *)
Fixpoint first_conflict (candidate : SoCRegion.t) (items : Dict.t SoCRegion.t) : result (option Z) :=
  match items with
  | [] => Ok None
  | (_, allocated) :: items' =>
      let? overlap := check_region [("0"%string, allocated); ("1"%string, candidate)] in
      match overlap with
      | Some _ =>
          let? origin := py_add (SoCRegion.origin allocated) (SoCRegion.size allocated) in
          Ok (Some origin)
      | None => first_conflict candidate items'
      end
  end.

(** [while (origin + size) < (search_region.origin + search_region.size)],
    one unit of fuel per test of the loop condition. *)
Fixpoint scan (fuel : nat) (items : Dict.t SoCRegion.t) (size : Z) (cached : bool)
              (limit : Z) (origin : Z) : result (option SoCRegion.t) :=
  match fuel with
  | O => Err OutOfFuel
  | S fuel' =>
      if origin + size <? limit then
        let candidate := SoCRegion.mk SoCRegion.Physical (Some origin) (Some size) cached in
        let? conflict := first_conflict candidate items in
        match conflict with
        | Some origin' => scan fuel' items size cached limit origin'
        | None => Ok (Some candidate)
        end
      else Ok None
  end.

(** [for _, search_region in search_regions.items()] *)
Fixpoint search (fuel : nat) (items : Dict.t SoCRegion.t) (size : Z) (cached : bool)
                (search_regions : Dict.t SoCRegion.t) : result SoCRegion.t :=
  match search_regions with
  | [] => Err OutOfSpaceError
  | (_, search_region) :: search_regions' =>
      match SoCRegion.origin search_region, SoCRegion.size search_region with
      | Some origin, Some search_size =>
          let? found := scan fuel items size cached (origin + search_size) origin in
          match found with
          | Some candidate => Ok candidate
          | None => search fuel items size cached search_regions'
          end
      | _, _ => Err PyTypeError
      end
  end.

(** [SoCBus.alloc_region].  The first log line formats [size] as
    hexadecimal, which raises a [TypeError] on [None].  Each turn of the
    [while] loop but the last moves [origin] to the end of a registered
    region further up, so one turn per registered region and one more are
    all the loop can take. *)
Definition alloc_region (size : option Z) (cached : bool) (self : t) : result SoCRegion.t :=
  match size with
  | None => Err PyTypeError
  | Some size =>
      let? uncached_regions := collect_uncached (regions self) Dict.empty in
      let search_regions :=
        if negb cached then uncached_regions
        else [("main"%string,
               SoCRegion.mk SoCRegion.Physical (Some 0) (Some (2 ^ address_width self - 1)) true)] in
      search (S (Dict.len (regions self))) (regions self) size cached search_regions
  end.

(** [SoCBus.add_region] *)
Definition add_region (name : string) (region : value_arg) : py t unit :=
  match region with
  | VRegion r =>
      match SoCRegion.kind r with
      | SoCRegion.Linker => ret tt
      | SoCRegion.Physical =>
          match SoCRegion.origin r with
          | None =>
              (region <- (fun self => lift (alloc_region (SoCRegion.size r) (SoCRegion.cached r) self) self) ;;
               modify (fun self => with_regions self (Dict.set name region (regions self))))%py
          | Some _ =>
              (modify (fun self => with_regions self (Dict.set name r (regions self))) ;;;
               overlap <- (fun self => lift (check_region (regions self)) self) ;;
               match overlap with
               | Some (n0, n1) => throw (OverlapError n0 n1)
               | None => ret tt
               end)%py
          end
      end
  | VInt _ | VOther => throw UnsupportedRegionError
  end.

(** [SoCBus.add_master]; [io_regions] is not used by the method. *)
Definition add_master (name : option string) (master : handle) : py t unit :=
  fun self =>
    let name :=
      match name with
      | Some name => name
      | None => ("master" ++ decimal (Dict.len (masters self)))%string
      end in
    if Dict.mem name (masters self) then Raise (DuplicateNameError name) self
    else Return tt (with_masters self (Dict.set name master (masters self))).

(** [SoCBus.add_slave] *)
Definition add_slave (name : option string) (slave : handle) (region : option value_arg)
  : py t unit :=
  fun self =>
    match name, region with
    | None, None => Raise MissingArgumentError self
    | _, _ =>
        let name :=
          match name with
          | Some name => name
          | None => ("slave" ++ decimal (Dict.len (slaves self)))%string
          end in
        (match region with
         | None =>
             fun self =>
               match Dict.get name (regions self) with
               | None => Raise RegionNotFoundError self
               | Some _ => Return tt self
               end
         | Some region => add_region name region
         end ;;;
         in_slaves <- gets (fun self => Dict.mem name (slaves self)) ;;
         if in_slaves then throw (DuplicateNameError name)
         else modify (fun self => with_slaves self (Dict.set name slave (slaves self))))%py self
    end.

(** [SoCBus.__init__]: an exception leaves the caller without an object. *)
Definition __init__ (standard : string) (data_width address_width timeout : Z)
                    (reserved_regions : list (string * value_arg)) : result t :=
  if negb (existsb (String.eqb standard) supported_standard) then Err ConfigurationError
  else if negb (existsb (Z.eqb data_width) supported_data_width) then Err ConfigurationError
  else if negb (existsb (Z.eqb address_width) supported_address_width) then Err ConfigurationError
  else
    let self := mk standard data_width address_width Dict.empty Dict.empty Dict.empty timeout in
    match for_each reserved_regions
            (fun '(name, region) =>
               let region :=
                 match region with
                 | VInt origin => VRegion (SoCRegion.mk SoCRegion.Physical (Some origin) (Some 0x1000000) true)
                 | _ => region
                 end in
               add_region name region) self with
    | Return _ self' => Ok self'
    | Raise e _ => Err e
    end.

End SoCBus.

(** ** Integer name spaces

    [for n in range(count): if n not in values: return n], started at
    [n]; [None] when the loop falls through. *)
Fixpoint first_free (values : list Z) (n : Z) (count : nat) : option Z :=
  match count with
  | O => None
  | S count' =>
      if negb (existsb (Z.eqb n) values) then Some n
      else first_free values (n + 1) count'
  end.

(** [n in d.values()], where [n] may be [None] and the values are integers. *)
Definition in_values (n : option Z) (d : Dict.t Z) : bool :=
  match n with
  | Some n => existsb (Z.eqb n) (Dict.values d)
  | None => false
  end.

(** ** SoCCSR *)

Module SoCCSR.

Record t : Type := mk {
  data_width : Z;
  address_width : Z;
  alignment : Z;
  paging : Z;
  csrs : Dict.t Z;
  n_csrs : Z
}.

Definition supported_data_width : list Z := [8; 32].
Definition supported_address_width : list Z := [14; 15].
Definition supported_alignment : list Z := [32; 64].
Definition supported_paging : list Z := [0x800].

Definition with_csrs (self : t) (c : Dict.t Z) : t :=
  mk (data_width self) (address_width self) (alignment self) (paging self) c (n_csrs self).

(** The bound of the [range] that [alloc] walks. *)
Definition alloc_range (self : t) : Z :=
  data_width self / 8 * 2 ^ address_width self / paging self.

(** [SoCCSR.alloc] *)
Definition alloc (name : string) (self : t) : result Z :=
  match first_free (Dict.values (csrs self)) 0 (Z.to_nat (alloc_range self)) with
  | Some n => Ok n
  | None => Err OutOfSpaceError
  end.

(** [SoCCSR.add].  The method has no [return]; the value given here is the
    location [n] it ends with, the one its last log line reports. *)
Definition add (name : string) (n : option Z) (use_loc_if_exists : bool) : py t Z :=
  fun self =>
    if negb (use_loc_if_exists && Dict.mem name (csrs self)) then
      if Dict.mem name (csrs self) then Raise (DuplicateNameError name) self
      else if in_values n (csrs self) then Raise LocationInUseError self
      else
        match n with
        | None =>
            match alloc name self with
            | Ok n => Return n (with_csrs self (Dict.set name n (csrs self)))
            | Err e => Raise e self
            end
        | Some n =>
            if n <? 0 then Raise RangeError self
            else if n >? n_csrs self then Raise RangeError self
            else Return n (with_csrs self (Dict.set name n (csrs self)))
        end
    else
      match Dict.get name (csrs self) with
      | Some n => Return n self
      | None => Raise PyKeyError self
      end.

(** [SoCCSR.__init__] *)
Definition __init__ (data_width address_width alignment paging : Z)
                    (reserved_csrs : list (string * option Z)) : result t :=
  if negb (existsb (Z.eqb data_width) supported_data_width) then Err ConfigurationError
  else if negb (existsb (Z.eqb address_width) supported_address_width) then Err ConfigurationError
  else if negb (existsb (Z.eqb alignment) supported_alignment) then Err ConfigurationError
  else if negb (existsb (Z.eqb paging) supported_paging) then Err ConfigurationError
  else
    let self := mk data_width address_width alignment paging Dict.empty
                   (4 * 2 ^ address_width / paging) in
    match for_each reserved_csrs
            (fun '(name, n) => bind (add name n false) (fun _ => ret tt)) self with
    | Return _ self' => Ok self'
    | Raise e _ => Err e
    end.

End SoCCSR.

(** ** SoCIRQ *)

Module SoCIRQ.

Record t : Type := mk {
  n_irqs : Z;
  irqs : Dict.t Z
}.

Definition with_irqs (self : t) (i : Dict.t Z) : t := mk (n_irqs self) i.

(** [SoCIRQ.alloc] *)
Definition alloc (name : string) (self : t) : result Z :=
  match first_free (Dict.values (irqs self)) 0 (Z.to_nat (n_irqs self)) with
  | Some n => Ok n
  | None => Err OutOfSpaceError
  end.

(** [SoCIRQ.add]; the value is the line [n] the method ends with.  The
    message of the upper range check reads [self.n_csrs], an attribute this
    class does not have, so that branch ends in an [AttributeError]. *)
Definition add (name : string) (n : option Z) : py t Z :=
  fun self =>
    if Dict.mem name (irqs self) then Raise (DuplicateNameError name) self
    else if in_values n (irqs self) then Raise LocationInUseError self
    else
      match n with
      | None =>
          match alloc name self with
          | Ok n => Return n (with_irqs self (Dict.set name n (irqs self)))
          | Err e => Raise e self
          end
      | Some n =>
          if n <? 0 then Raise RangeError self
          else if n >? n_irqs self then Raise (PyAttributeError "n_csrs") self
          else Return n (with_irqs self (Dict.set name n (irqs self)))
      end.

(** [SoCIRQ.__init__]; the message of the first check reads [n] before the
    loop below has bound it. *)
Definition __init__ (n_irqs : Z) (reserved_irqs : list (string * option Z)) : result t :=
  if n_irqs >? 32 then Err (PyUnboundLocalError "n")
  else
    let self := mk n_irqs Dict.empty in
    match for_each reserved_irqs
            (fun '(name, n) => bind (add name n) (fun _ => ret tt)) self with
    | Return _ self' => Ok self'
    | Raise e _ => Err e
    end.

End SoCIRQ.

(** ** Properties of the region table *)

(** [r0.origin >= r1.origin + r1.size], with all three attributes set. *)
Definition starts_after (r0 r1 : SoCRegion.t) : Prop :=
  exists o0 o1 s1,
    SoCRegion.origin r0 = Some o0 /\ SoCRegion.origin r1 = Some o1 /\
    SoCRegion.size r1 = Some s1 /\ o0 >= o1 + s1.

Definition disjoint (r0 r1 : SoCRegion.t) : Prop :=
  starts_after r0 r1 \/ starts_after r1 r0.

(** Neither region lies entirely before the other. *)
Definition overlapping (r0 r1 : SoCRegion.t) : Prop :=
  exists o0 s0 o1 s1,
    SoCRegion.origin r0 = Some o0 /\ SoCRegion.size r0 = Some s0 /\
    SoCRegion.origin r1 = Some o1 /\ SoCRegion.size r1 = Some s1 /\
    o0 < o1 + s1 /\ o1 < o0 + s0.

(** Every two entries of the table, at different places, that are not
    linker regions are disjoint. *)
Definition no_overlap (regions : Dict.t SoCRegion.t) : Prop :=
  forall i j n0 r0 n1 r1,
    i <> j ->
    nth_error regions i = Some (n0, r0) ->
    nth_error regions j = Some (n1, r1) ->
    SoCRegion.kind r0 = SoCRegion.Physical ->
    SoCRegion.kind r1 = SoCRegion.Physical ->
    disjoint r0 r1.

(** Every entry that is not a linker region has its origin and size set. *)
Definition sized (regions : Dict.t SoCRegion.t) : Prop :=
  forall n r,
    In (n, r) regions ->
    SoCRegion.kind r = SoCRegion.Physical ->
    exists o s, SoCRegion.origin r = Some o /\ SoCRegion.size r = Some s.

(** The calls a client makes on a bus. *)
Inductive call : Type :=
| AddRegion (name : string) (region : value_arg)
| AllocRegion (size : option Z) (cached : bool)
| AddSlave (name : option string) (slave : handle) (region : option value_arg)
| AddMaster (name : option string) (master : handle).

Definition run (c : call) : py SoCBus.t unit :=
  match c with
  | AddRegion name region => SoCBus.add_region name region
  | AllocRegion size cached =>
      fun self =>
        match SoCBus.alloc_region size cached self with
        | Ok _ => Return tt self
        | Err e => Raise e self
        end
  | AddSlave name slave region => SoCBus.add_slave name slave region
  | AddMaster name master => SoCBus.add_master name master
  end.

(** A bus as its constructor returned it, then driven through calls that
    all returned normally. *)
Inductive completed : SoCBus.t -> Prop :=
| completed_init standard data_width address_width timeout reserved_regions self :
    SoCBus.__init__ standard data_width address_width timeout reserved_regions = Ok self ->
    completed self
| completed_call self c self' :
    completed self ->
    run c self = Return tt self' ->
    completed self'.

(** The registered regions that end beyond [o]: the ones a candidate at
    [o] can still collide with. *)
Definition ends_beyond (o : Z) (p : string * SoCRegion.t) : bool :=
  match SoCRegion.origin (snd p), SoCRegion.size (snd p) with
  | Some oa, Some sa => o <? oa + sa
  | _, _ => false
  end.

(** ** Scenarios *)

(** The bus of the module's own test: [rom] at a given origin, [ram]
    placed by the search. *)
Definition main_reserved : list (string * value_arg) :=
  [("rom"%string, VRegion (SoCRegion.mk SoCRegion.Physical (Some 0x100) (Some 1024) true));
   ("ram"%string, VRegion (SoCRegion.mk SoCRegion.Physical None (Some 512) true))].

Definition main_bus : SoCBus.t :=
  SoCBus.mk "wishbone" 32 32 Dict.empty Dict.empty
    [("rom"%string, SoCRegion.mk SoCRegion.Physical (Some 0x100) (Some 1024) true);
     ("ram"%string, SoCRegion.mk SoCRegion.Physical (Some 1280) (Some 512) true)]
    1000000.

(** A bus with one uncached window set aside. *)
Definition io_region : SoCRegion.t :=
  SoCRegion.mk SoCRegion.Physical (Some 0x80000000) (Some 0x10000) false.

Definition io_bus : SoCBus.t :=
  SoCBus.mk "wishbone" 32 32 Dict.empty Dict.empty [("io"%string, io_region)] 1000000.

(** Reserved CSRs [csr1 .. csr32] at the locations [1 .. 32]. *)
Definition csrs_1_to_32 : list (string * option Z) :=
  map (fun i => (("csr" ++ decimal i)%string, Some (Z.of_nat i))) (seq 1 32).

Definition ctrl_uart : list (string * option Z) :=
  [("ctrl"%string, Some 0); ("uart"%string, Some 1)].

(** ** SoC

    The top-level object builds the three handlers in turn; finalizing it
    turns the slaves of the bus into (decoder, slave) pairs and, when the
    bus has both masters and slaves, hands them to the interconnect. *)

Module SoC.

Record t : Type := mk {
  bus : SoCBus.t;
  csr : SoCCSR.t;
  irq : SoCIRQ.t
}.

(** The arguments [do_finalize] passes to [wishbone.InterconnectShared]. *)
Record interconnect : Type := mkInterconnect {
  masters : list handle;
  slaves : list ((Signal -> result bool) * handle);
  register : bool;
  timeout_cycles : Z
}.

(** [SoC.__init__] *)
Definition __init__ (bus_standard : string) (bus_data_width bus_address_width bus_timeout : Z)
                    (bus_reserved_regions : list (string * value_arg))
                    (csr_data_width csr_address_width csr_alignment csr_paging : Z)
                    (csr_reserved_csrs : list (string * option Z))
                    (irq_n_irqs : Z) (irq_reserved_irqs : list (string * option Z))
  : result t :=
  let? bus := SoCBus.__init__ bus_standard bus_data_width bus_address_width bus_timeout
                bus_reserved_regions in
  let? csr := SoCCSR.__init__ csr_data_width csr_address_width csr_alignment csr_paging
                csr_reserved_csrs in
  let? irq := SoCIRQ.__init__ irq_n_irqs irq_reserved_irqs in
  Ok (mk bus csr irq).

(** [[(self.bus.regions[n].decoder(), s) for n, s in self.bus.slaves.items()]];
    [regions[n]] raises a [KeyError] on a name the table does not hold. *)
Fixpoint bus_slaves (regions : Dict.t SoCRegion.t) (items : Dict.t handle)
  : result (list ((Signal -> result bool) * handle)) :=
  match items with
  | [] => Ok []
  | (n, s) :: items' =>
      match Dict.get n regions with
      | None => Err PyKeyError
      | Some region =>
          let? d := SoCRegion.decoder region in
          let? rest := bus_slaves regions items' in
          Ok ((d, s) :: rest)
      end
  end.

(** [SoC.do_finalize], up to its call of [wishbone.InterconnectShared]:
    the arguments of that call, or [None] when the call is skipped.  The
    interconnect itself belongs to [litex.soc.interconnect]. *)
Definition do_finalize (self : t) : result (option interconnect) :=
  let bus_masters := Dict.values (SoCBus.masters (bus self)) in
  let? bus_slaves := bus_slaves (SoCBus.regions (bus self)) (SoCBus.slaves (bus self)) in
  if negb (Nat.eqb (List.length bus_masters) 0) && negb (Nat.eqb (List.length bus_slaves) 0)
  then Ok (Some (mkInterconnect bus_masters bus_slaves true (SoCBus.timeout (bus self))))
  else Ok None.

End SoC.

(** ** Allocators driven by their clients *)

(** A CSR allocator as its constructor returned it, then driven through
    [add] calls that all returned normally. *)
Inductive csr_completed : SoCCSR.t -> Prop :=
| csr_completed_init data_width address_width alignment paging reserved_csrs self :
    SoCCSR.__init__ data_width address_width alignment paging reserved_csrs = Ok self ->
    csr_completed self
| csr_completed_add self name n use_loc_if_exists loc self' :
    csr_completed self ->
    SoCCSR.add name n use_loc_if_exists self = Return loc self' ->
    csr_completed self'.

(** The same for an IRQ allocator. *)
Inductive irq_completed : SoCIRQ.t -> Prop :=
| irq_completed_init n_irqs reserved_irqs self :
    SoCIRQ.__init__ n_irqs reserved_irqs = Ok self ->
    irq_completed self
| irq_completed_add self name n line self' :
    irq_completed self ->
    SoCIRQ.add name n self = Return line self' ->
    irq_completed self'.

(** The names [prefix0], [prefix1], ... that [add_master] and [add_slave]
    make up for unnamed objects. *)
Definition auto_names (prefix : string) (count : nat) : list string :=
  map (fun i => (prefix ++ decimal i)%string) (seq 0 count).

(** The locations [0 .. count-1]. *)
Definition first_locations (count : nat) : list Z := map Z.of_nat (seq 0 count).

(** The rounded size of a region of [s] bytes, as an exponent, and its
    origin with bit 31 cleared: what [decoder] computes first. *)
Definition window_exponent (s : Z) : Z := Z.log2_up s.

Definition window_origin (o : Z) : Z := Z.land o (Z.lnot 0x80000000).

(** Three regions of which the first collides with both others. *)
Definition crowded_table : Dict.t SoCRegion.t :=
  [("a"%string, SoCRegion.mk SoCRegion.Physical (Some 0) (Some 0x100) true);
   ("b"%string, SoCRegion.mk SoCRegion.Physical (Some 0x80) (Some 0x100) true);
   ("c"%string, SoCRegion.mk SoCRegion.Physical (Some 0xc0) (Some 0x10) true)].

(** The parameters the constructor checked and what the table can hold. *)
Definition bus_well_formed (self : SoCBus.t) : Prop :=
  SoCBus.standard self = "wishbone"%string /\
  (SoCBus.data_width self = 32 \/ SoCBus.data_width self = 64) /\
  SoCBus.address_width self = 32 /\
  forall n r, In (n, r) (SoCBus.regions self) ->
              SoCRegion.kind r = SoCRegion.Physical /\ exists o, SoCRegion.origin r = Some o.

(** A system with one master and one slave on an aligned window. *)
Definition rom_bus : SoCBus.t :=
  SoCBus.mk "wishbone" 32 32 [("cpu"%string, None)] [("rom"%string, Some 1%nat)]
    [("rom"%string, SoCRegion.mk SoCRegion.Physical (Some 0x10000000) (Some 0x1000) true)]
    1000000.

Definition rom_soc : SoC.t :=
  SoC.mk rom_bus (SoCCSR.mk 32 14 32 0x800 Dict.empty 32) (SoCIRQ.mk 32 Dict.empty).

(** A client that adds CSRs one after the other and leaves the choice of
    the location to the allocator. *)
Definition csr_add_all (names : list string) : py SoCCSR.t unit :=
  for_each names (fun name => bind (SoCCSR.add name None false) (fun _ => ret tt)).

(** What holds of every table of locations or lines: names and numbers
    are used once, and the numbers lie between [0] and [bound]. *)
Definition table_ok (table : Dict.t Z) (bound : Z) : Prop :=
  NoDup (Dict.keys table) /\ NoDup (Dict.values table) /\
  forall name loc, In (name, loc) table -> 0 <= loc <= bound.

(** An 8-bit CSR bus without reserved entries, and eight names for it. *)
Definition csr8 : SoCCSR.t := SoCCSR.mk 8 14 32 0x800 Dict.empty 32.

Definition eight_names : list string := auto_names "csr" 8.

(** The name [add_slave] registers a slave under: the one given, or the
    one it makes up from the number of slaves. *)
Definition slave_name (name : option string) (self : SoCBus.t) : string :=
  match name with
  | Some name => name
  | None => ("slave" ++ decimal (Dict.len (SoCBus.slaves self)))%string
  end.

(** The bus of the module's test after its [add_slave("rom", ...)], which
    moved [rom] behind [ram]. *)
Definition rom_slave_bus : SoCBus.t :=
  SoCBus.mk "wishbone" 32 32 Dict.empty [("rom"%string, None)]
    [("rom"%string, SoCRegion.mk SoCRegion.Physical (Some 1792) (Some 1024) true);
     ("ram"%string, SoCRegion.mk SoCRegion.Physical (Some 1280) (Some 512) true)]
    1000000.

(** A bus whose second slave was named [slave1] by its client. *)
Definition slave1_bus : SoCBus.t :=
  SoCBus.mk "wishbone" 32 32 Dict.empty [("slave1"%string, None)]
    [("slave1"%string, SoCRegion.mk SoCRegion.Physical (Some 0) (Some 0x1000) true)]
    1000000.

(** A (decoder, slave) pair that [do_finalize] makes for an entry of the
    slave registry: the slave of the entry, with the decoder of the region
    that the table binds to the entry's name. *)
Definition decodes (regions : Dict.t SoCRegion.t) (item : string * handle)
           (pair : (Signal -> result bool) * handle) : Prop :=
  snd pair = snd item /\
  exists r, Dict.get (fst item) regions = Some r /\ SoCRegion.decoder r = Ok (fst pair).

(** * Proofs *)

(** ** Dictionaries *)

Lemma nth_error_set {V : Type} (k : string) (v : V) (d : Dict.t V) (i : nat) :
  nth_error (Dict.set k v d) i =
  if Nat.eqb i (Dict.index k d) then Some (k, v) else nth_error d i.
Proof.
  revert i; induction d as [|[k' v'] d IH]; intros i; simpl.
  - destruct i as [|i]; simpl; [reflexivity|]. now destruct i.
  - destruct (String.eqb k k'); destruct i as [|i]; simpl; try reflexivity.
    apply IH.
Qed.

Lemma set_in_old {V : Type} (k : string) (v : V) (d : Dict.t V) (k' : string) (v' : V) :
  In (k', v') d -> k' <> k -> In (k', v') (Dict.set k v d).
Proof.
  induction d as [|[k0 v0] d IH]; simpl; [tauto|].
  intros [E|H] Hne.
  - inversion E; subst. destruct (String.eqb_spec k k'); [congruence|]. now left.
  - destruct (String.eqb k k0); simpl; auto.
Qed.

Lemma set_in_new {V : Type} (k : string) (v : V) (d : Dict.t V) :
  In (k, v) (Dict.set k v d).
Proof.
  induction d as [|[k0 v0] d IH]; simpl; [now left|].
  destruct (String.eqb k k0); simpl; auto.
Qed.

Lemma in_set_inv {V : Type} (k : string) (v : V) (d : Dict.t V) (p : string * V) :
  In p (Dict.set k v d) -> p = (k, v) \/ In p d.
Proof.
  intros H. apply In_nth_error in H as [i Hi].
  rewrite nth_error_set in Hi. destruct (Nat.eqb i (Dict.index k d)).
  - left. congruence.
  - right. eapply nth_error_In; eauto.
Qed.

Lemma mem_get {V : Type} (k : string) (d : Dict.t V) :
  Dict.mem k d = true <-> exists v, Dict.get k d = Some v.
Proof.
  unfold Dict.mem, Dict.keys. induction d as [|[k' v'] d IH]; simpl.
  - split; [discriminate|]. intros [v H]; discriminate.
  - destruct (String.eqb k k'); simpl; [|exact IH].
    split; eauto.
Qed.

(** ** The overlap check *)

Lemma disjoint_sym (r0 r1 : SoCRegion.t) : disjoint r0 r1 -> disjoint r1 r0.
Proof. unfold disjoint; tauto. Qed.

Lemma pair_overlaps_false (r0 r1 : SoCRegion.t) :
  SoCBus.pair_overlaps r0 r1 = Ok false ->
  SoCRegion.kind r0 = SoCRegion.Physical ->
  SoCRegion.kind r1 = SoCRegion.Physical ->
  disjoint r0 r1.
Proof.
  unfold SoCBus.pair_overlaps, SoCRegion.is_linker, disjoint, starts_after.
  intros H K0 K1; rewrite K0, K1 in H; simpl in H.
  destruct (SoCRegion.origin r1) as [o1|] eqn:O1; simpl in H; [|discriminate].
  destruct (SoCRegion.size r1) as [s1|] eqn:S1; simpl in H; [|discriminate].
  destruct (SoCRegion.origin r0) as [o0|] eqn:O0; simpl in H; [|discriminate].
  destruct (Z.geb_spec o0 (o1 + s1)).
  - left. exists o0, o1, s1. repeat split; auto; lia.
  - destruct (SoCRegion.size r0) as [s0|] eqn:S0; simpl in H; [|discriminate].
    destruct (Z.geb_spec o1 (o0 + s0)); [|discriminate].
    right. exists o1, o0, s0. repeat split; auto; lia.
Qed.

Lemma pair_overlaps_true (r0 r1 : SoCRegion.t) :
  SoCBus.pair_overlaps r0 r1 = Ok true ->
  SoCRegion.kind r0 = SoCRegion.Physical /\ SoCRegion.kind r1 = SoCRegion.Physical /\
  overlapping r0 r1.
Proof.
  unfold SoCBus.pair_overlaps, SoCRegion.is_linker, overlapping.
  intros H.
  destruct (SoCRegion.kind r0); [|discriminate].
  destruct (SoCRegion.kind r1); [|discriminate]. simpl in H.
  destruct (SoCRegion.origin r1) as [o1|] eqn:O1; simpl in H; [|discriminate].
  destruct (SoCRegion.size r1) as [s1|] eqn:S1; simpl in H; [|discriminate].
  destruct (SoCRegion.origin r0) as [o0|] eqn:O0; simpl in H; [|discriminate].
  destruct (Z.geb_spec o0 (o1 + s1)); [discriminate|].
  destruct (SoCRegion.size r0) as [s0|] eqn:S0; simpl in H; [|discriminate].
  destruct (Z.geb_spec o1 (o0 + s0)); [discriminate|].
  repeat split; auto. exists o0, s0, o1, s1. repeat split; auto; lia.
Qed.

Lemma overlapping_pair_overlaps (r0 r1 : SoCRegion.t) :
  SoCRegion.kind r0 = SoCRegion.Physical ->
  SoCRegion.kind r1 = SoCRegion.Physical ->
  overlapping r0 r1 ->
  SoCBus.pair_overlaps r0 r1 = Ok true.
Proof.
  unfold SoCBus.pair_overlaps, SoCRegion.is_linker, overlapping.
  intros K0 K1 (o0 & s0 & o1 & s1 & O0 & S0 & O1 & S1 & H1 & H2).
  rewrite K0, K1, O0, S0, O1, S1; simpl.
  destruct (Z.geb_spec o0 (o1 + s1)); [lia|].
  destruct (Z.geb_spec o1 (o0 + s0)); [lia|]. reflexivity.
Qed.

Lemma overlapping_sym (r0 r1 : SoCRegion.t) : overlapping r0 r1 -> overlapping r1 r0.
Proof.
  intros (o0 & s0 & o1 & s1 & O0 & S0 & O1 & S1 & H1 & H2).
  exists o1, s1, o0, s0. repeat split; auto.
Qed.

Lemma overlapping_not_disjoint (r0 r1 : SoCRegion.t) :
  overlapping r0 r1 -> ~ disjoint r0 r1.
Proof.
  intros (o0 & s0 & o1 & s1 & O0 & S0 & O1 & S1 & H1 & H2) [D|D];
    destruct D as (a & b & c & A & B & C & D); rewrite ?O0, ?O1, ?S0, ?S1 in *;
    inversion A; inversion B; inversion C; subst; lia.
Qed.

Lemma check_against_none (r0 : SoCRegion.t) (rest : Dict.t SoCRegion.t) :
  SoCBus.check_against r0 rest = Ok None ->
  forall j n1 r1, nth_error rest j = Some (n1, r1) -> SoCBus.pair_overlaps r0 r1 = Ok false.
Proof.
  induction rest as [|[n r] rest IH]; simpl; intros H j n1 r1 Hj.
  - destruct j; discriminate.
  - destruct (SoCBus.pair_overlaps r0 r) as [[|]|] eqn:P; simpl in H; try discriminate.
    destruct j as [|j]; simpl in Hj.
    + inversion Hj; subst; exact P.
    + eapply IH; eauto.
Qed.

Lemma check_against_some (r0 : SoCRegion.t) (rest : Dict.t SoCRegion.t) (n1 : string) :
  SoCBus.check_against r0 rest = Ok (Some n1) ->
  exists j r1, nth_error rest j = Some (n1, r1) /\ SoCBus.pair_overlaps r0 r1 = Ok true.
Proof.
  induction rest as [|[n r] rest IH]; simpl; intros H; [discriminate|].
  destruct (SoCBus.pair_overlaps r0 r) as [[|]|] eqn:P; simpl in H; try discriminate.
  - inversion H; subst. exists O, r. auto.
  - destruct (IH H) as (j & r1 & Hj & Hp). exists (S j), r1. auto.
Qed.

Lemma check_region_none (l : Dict.t SoCRegion.t) :
  SoCBus.check_region l = Ok None ->
  forall i j n0 r0 n1 r1,
    (i < j)%nat ->
    nth_error l i = Some (n0, r0) ->
    nth_error l j = Some (n1, r1) ->
    SoCBus.pair_overlaps r0 r1 = Ok false.
Proof.
  induction l as [|[n r] l IH]; simpl; intros H i j n0 r0 n1 r1 Hij Hi Hj.
  - destruct i; discriminate.
  - destruct (SoCBus.check_against r l) as [[m|]|] eqn:C; simpl in H; try discriminate.
    destruct j as [|j]; [lia|]. simpl in Hj.
    destruct i as [|i]; simpl in Hi.
    + inversion Hi; subst. eapply check_against_none; eauto.
    + eapply (IH H i j); eauto. lia.
Qed.

Lemma check_region_some (l : Dict.t SoCRegion.t) (n0 n1 : string) :
  SoCBus.check_region l = Ok (Some (n0, n1)) ->
  exists i j r0 r1,
    (i < j)%nat /\ nth_error l i = Some (n0, r0) /\ nth_error l j = Some (n1, r1) /\
    SoCBus.pair_overlaps r0 r1 = Ok true.
Proof.
  induction l as [|[n r] l IH]; simpl; intros H; [discriminate|].
  destruct (SoCBus.check_against r l) as [[m|]|] eqn:C; simpl in H; try discriminate.
  - inversion H; subst. destruct (check_against_some _ _ _ C) as (j & r1 & Hj & Hp).
    exists O, (S j), r, r1. repeat split; auto. lia.
  - destruct (IH H) as (i & j & r0 & r1 & Hij & Hi & Hj & Hp).
    exists (S i), (S j), r0, r1. repeat split; auto. lia.
Qed.

Lemma check_region_no_overlap (l : Dict.t SoCRegion.t) :
  SoCBus.check_region l = Ok None -> no_overlap l.
Proof.
  intros H i j n0 r0 n1 r1 Hij Hi Hj K0 K1.
  destruct (Nat.lt_ge_cases i j) as [L|L].
  - apply pair_overlaps_false; auto. eapply check_region_none; eauto.
  - apply disjoint_sym, pair_overlaps_false; auto.
    eapply (check_region_none l H j i); eauto. lia.
Qed.

(** ** The region search *)

Lemma check_region_pair (k0 k1 : string) (a c : SoCRegion.t) :
  SoCBus.check_region [(k0, a); (k1, c)] =
  let? hit := SoCBus.pair_overlaps a c in Ok (if hit then Some (k0, k1) else None).
Proof.
  simpl. destruct (SoCBus.pair_overlaps a c) as [[|]|]; reflexivity.
Qed.

Lemma first_conflict_none (candidate : SoCRegion.t) (items : Dict.t SoCRegion.t) :
  SoCBus.first_conflict candidate items = Ok None ->
  forall n a, In (n, a) items -> SoCBus.pair_overlaps a candidate = Ok false.
Proof.
  induction items as [|[k r] items IH]; intros H n a Hin; [destruct Hin|].
  cbn [SoCBus.first_conflict] in H. rewrite check_region_pair in H.
  destruct (SoCBus.pair_overlaps r candidate) as [[|]|] eqn:P; simpl in H.
  - destruct (py_add (SoCRegion.origin r) (SoCRegion.size r)); discriminate.
  - destruct Hin as [E|Hin]; [inversion E; subst; exact P|]. eapply IH; eauto.
  - discriminate.
Qed.

Lemma first_conflict_some (candidate : SoCRegion.t) (items : Dict.t SoCRegion.t) (e : Z) :
  SoCBus.first_conflict candidate items = Ok (Some e) ->
  exists n a,
    In (n, a) items /\ SoCBus.pair_overlaps a candidate = Ok true /\
    py_add (SoCRegion.origin a) (SoCRegion.size a) = Ok e.
Proof.
  induction items as [|[k r] items IH]; intros H; [discriminate|].
  cbn [SoCBus.first_conflict] in H. rewrite check_region_pair in H.
  destruct (SoCBus.pair_overlaps r candidate) as [[|]|] eqn:P; simpl in H.
  - destruct (py_add (SoCRegion.origin r) (SoCRegion.size r)) as [x|] eqn:A;
      simpl in H; [|discriminate].
    inversion H; subst. exists k, r. repeat split; auto. now left.
  - destruct (IH H) as (n & a & Hin & Hp & Ha). exists n, a. repeat split; auto. now right.
  - discriminate.
Qed.

Lemma pair_overlaps_error (r0 r1 : SoCRegion.t) (e : error) :
  SoCBus.pair_overlaps r0 r1 = Err e -> e = PyTypeError.
Proof.
  unfold SoCBus.pair_overlaps, py_add, py_ge.
  destruct (SoCRegion.is_linker r0 || SoCRegion.is_linker r1); [discriminate|].
  destruct (SoCRegion.origin r1), (SoCRegion.size r1), (SoCRegion.origin r0);
    simpl; try congruence.
  destruct (z1 >=? z + z0); [discriminate|].
  destruct (SoCRegion.size r0); simpl; [|congruence].
  destruct (z >=? z1 + z2); discriminate.
Qed.

Lemma first_conflict_error (candidate : SoCRegion.t) (items : Dict.t SoCRegion.t) (e : error) :
  SoCBus.first_conflict candidate items = Err e -> e = PyTypeError.
Proof.
  induction items as [|[k r] items IH]; intros H; [discriminate|].
  cbn [SoCBus.first_conflict] in H. rewrite check_region_pair in H.
  destruct (SoCBus.pair_overlaps r candidate) as [[|]|] eqn:P; simpl in H; auto.
  - unfold py_add in H.
    destruct (SoCRegion.origin r), (SoCRegion.size r); simpl in H; congruence.
  - apply pair_overlaps_error in P. congruence.
Qed.

Lemma filter_length_lt {A : Type} (f g : A -> bool) (l : list A) :
  (forall x, In x l -> f x = true -> g x = true) ->
  (exists x, In x l /\ f x = false /\ g x = true) ->
  (List.length (filter f l) < List.length (filter g l))%nat.
Proof.
  induction l as [|y l IH]; intros Hsub (x & Hin & Hf & Hg); [destruct Hin|].
  assert (Hle : forall l', (forall x, In x l' -> f x = true -> g x = true) ->
                           (List.length (filter f l') <= List.length (filter g l'))%nat).
  { clear. induction l' as [|z l' IH']; simpl; intros H; [lia|].
    assert (IHl := IH' (fun x Hx => H x (or_intror Hx))).
    destruct (f z) eqn:F.
    - rewrite (H z (or_introl eq_refl) F). simpl. lia.
    - destruct (g z); simpl; lia. }
  simpl. destruct Hin as [->|Hin].
  - rewrite Hf, Hg. simpl.
    specialize (Hle l (fun x Hx => Hsub x (or_intror Hx))). lia.
  - assert (IH' := IH (fun x Hx => Hsub x (or_intror Hx))
                      (ex_intro _ x (conj Hin (conj Hf Hg)))).
    destruct (f y) eqn:F.
    + rewrite (Hsub y (or_introl eq_refl) F). simpl. lia.
    + destruct (g y); simpl; lia.
Qed.

Lemma first_conflict_advances (items : Dict.t SoCRegion.t) (o size e : Z) (cached : bool) :
  SoCBus.first_conflict (SoCRegion.mk SoCRegion.Physical (Some o) (Some size) cached) items
  = Ok (Some e) ->
  o < e /\
  (List.length (filter (ends_beyond e) items) < List.length (filter (ends_beyond o) items))%nat.
Proof.
  intros H. apply first_conflict_some in H as (n & a & Hin & Hp & Ha).
  apply pair_overlaps_true in Hp as (_ & _ & (o0 & s0 & o1 & s1 & O0 & S0 & O1 & S1 & H1 & H2)).
  simpl in O1, S1. inversion O1; inversion S1; subst o1 s1.
  unfold py_add in Ha. rewrite O0, S0 in Ha. inversion Ha; subst e.
  split; [lia|].
  apply filter_length_lt.
  - intros [k x] _. unfold ends_beyond; simpl.
    destruct (SoCRegion.origin x), (SoCRegion.size x); auto.
    intros L. apply Z.ltb_lt in L. apply Z.ltb_lt. lia.
  - exists (n, a). split; [exact Hin|]. unfold ends_beyond; simpl. rewrite O0, S0.
    split; [apply Z.ltb_irrefl | apply Z.ltb_lt; lia].
Qed.

Lemma scan_fuel (items : Dict.t SoCRegion.t) (size limit : Z) (cached : bool) :
  forall fuel origin,
    (List.length (filter (ends_beyond origin) items) < fuel)%nat ->
    SoCBus.scan fuel items size cached limit origin <> Err OutOfFuel.
Proof.
  induction fuel as [|fuel IH]; intros origin Hlt; [lia|].
  simpl. destruct (origin + size <? limit); [|discriminate].
  destruct (SoCBus.first_conflict _ items) as [[e|]|e] eqn:F; simpl.
  - apply IH. apply first_conflict_advances in F. lia.
  - discriminate.
  - apply first_conflict_error in F. congruence.
Qed.

Lemma search_fuel (items : Dict.t SoCRegion.t) (size : Z) (cached : bool)
      (search_regions : Dict.t SoCRegion.t) :
  SoCBus.search (S (List.length items)) items size cached search_regions <> Err OutOfFuel.
Proof.
  induction search_regions as [|[k sr] rest IH]; cbn [SoCBus.search]; [discriminate|].
  destruct (SoCRegion.origin sr) as [o|]; [|discriminate].
  destruct (SoCRegion.size sr) as [s|]; [|discriminate].
  destruct (SoCBus.scan _ items size cached (o + s) o) as [[c|]|e] eqn:Sc;
    cbn [rbind]; [discriminate|exact IH|].
  intros E; inversion E; subst.
  revert Sc. apply scan_fuel.
  pose proof (filter_length_le (ends_beyond o) items). lia.
Qed.

Lemma collect_uncached_spec (items acc : Dict.t SoCRegion.t) :
  SoCBus.collect_uncached items acc =
  if existsb (fun p => negb (SoCRegion.cached (snd p))) items
  then Err (PyNameError "name") else Ok acc.
Proof.
  induction items as [|[k r] items IH]; simpl; [reflexivity|].
  destruct (SoCRegion.cached r); simpl; auto.
Qed.

(** The model's fuel is never used up: [alloc_region] always comes back
    with a candidate or with one of the source's exceptions. *)
Lemma alloc_region_terminates (size : option Z) (cached : bool) (self : SoCBus.t) :
  SoCBus.alloc_region size cached self <> Err OutOfFuel.
Proof.
  unfold SoCBus.alloc_region. destruct size as [size|]; [|discriminate].
  rewrite collect_uncached_spec.
  destruct (existsb _ (SoCBus.regions self)); [discriminate|]. cbn [rbind].
  apply search_fuel.
Qed.

Lemma scan_found (items : Dict.t SoCRegion.t) (size limit : Z) (cached : bool)
      (candidate : SoCRegion.t) :
  forall fuel origin,
    SoCBus.scan fuel items size cached limit origin = Ok (Some candidate) ->
    exists o,
      candidate = SoCRegion.mk SoCRegion.Physical (Some o) (Some size) cached /\
      origin <= o /\ o + size < limit /\
      SoCBus.first_conflict candidate items = Ok None.
Proof.
  induction fuel as [|fuel IH]; intros origin H; [discriminate|].
  simpl in H. destruct (Z.ltb_spec (origin + size) limit); [|discriminate].
  destruct (SoCBus.first_conflict
              (SoCRegion.mk SoCRegion.Physical (Some origin) (Some size) cached) items)
    as [[e|]|e] eqn:F; simpl in H.
  - apply IH in H as (o & -> & Ho & Hl & Hc).
    apply first_conflict_advances in F. exists o. repeat split; auto; lia.
  - inversion H; subst. exists origin. repeat split; auto; lia.
  - discriminate.
Qed.

Lemma search_found (items : Dict.t SoCRegion.t) (size : Z) (cached : bool)
      (candidate : SoCRegion.t) (fuel : nat) (search_regions : Dict.t SoCRegion.t) :
  SoCBus.search fuel items size cached search_regions = Ok candidate ->
  exists k sr so ss o,
    In (k, sr) search_regions /\
    SoCRegion.origin sr = Some so /\ SoCRegion.size sr = Some ss /\
    candidate = SoCRegion.mk SoCRegion.Physical (Some o) (Some size) cached /\
    so <= o /\ o + size < so + ss /\
    SoCBus.first_conflict candidate items = Ok None.
Proof.
  induction search_regions as [|[k sr] rest IH]; cbn [SoCBus.search]; [discriminate|].
  destruct (SoCRegion.origin sr) as [so|] eqn:O; [|discriminate].
  destruct (SoCRegion.size sr) as [ss|] eqn:Sz; [|discriminate].
  destruct (SoCBus.scan fuel items size cached (so + ss) so) as [[c|]|e] eqn:Sc;
    cbn [rbind]; intros H.
  - inversion H; subst. apply scan_found in Sc as (o & -> & Ho & Hl & Hc).
    exists k, sr, so, ss, o. repeat split; auto. now left.
  - destruct (IH H) as (k' & sr' & so' & ss' & o & Hin & R).
    exists k', sr', so', ss', o. split; [now right | exact R].
  - discriminate.
Qed.

Lemma alloc_region_found (size : option Z) (cached : bool) (self : SoCBus.t)
      (candidate : SoCRegion.t) :
  SoCBus.alloc_region size cached self = Ok candidate ->
  exists o sz,
    size = Some sz /\
    candidate = SoCRegion.mk SoCRegion.Physical (Some o) (Some sz) cached /\
    SoCBus.first_conflict candidate (SoCBus.regions self) = Ok None.
Proof.
  unfold SoCBus.alloc_region. destruct size as [sz|]; [|discriminate].
  destruct (SoCBus.collect_uncached _ _) as [u|]; cbn [rbind]; [|discriminate].
  intros H. apply search_found in H as (k & sr & so & ss & o & _ & _ & _ & -> & _ & _ & Hc).
  exists o, sz. auto.
Qed.

(** ** The no-overlap invariant *)

Lemma no_overlap_empty : no_overlap Dict.empty.
Proof. intros i j n0 r0 n1 r1 _ Hi. destruct i; discriminate. Qed.

Lemma no_overlap_set (name : string) (candidate : SoCRegion.t) (l : Dict.t SoCRegion.t) :
  no_overlap l ->
  (forall n a, In (n, a) l -> SoCBus.pair_overlaps a candidate = Ok false) ->
  no_overlap (Dict.set name candidate l).
Proof.
  intros Hl Hc i j n0 r0 n1 r1 Hij Hi Hj K0 K1.
  rewrite nth_error_set in Hi, Hj.
  destruct (Nat.eqb_spec i (Dict.index name l)) as [Ei|Ei];
    destruct (Nat.eqb_spec j (Dict.index name l)) as [Ej|Ej].
  - congruence.
  - inversion Hi; subst r0. apply disjoint_sym, pair_overlaps_false; auto.
    eapply Hc, nth_error_In; eauto.
  - inversion Hj; subst r1. apply pair_overlaps_false; auto.
    eapply Hc, nth_error_In; eauto.
  - exact (Hl i j n0 r0 n1 r1 Hij Hi Hj K0 K1).
Qed.

Lemma add_region_regions (name : string) (region : value_arg) (self self' : SoCBus.t) :
  SoCBus.add_region name region self = Return tt self' ->
  SoCBus.regions self' = SoCBus.regions self \/
  (exists candidate,
      SoCBus.regions self' = Dict.set name candidate (SoCBus.regions self) /\
      SoCBus.first_conflict candidate (SoCBus.regions self) = Ok None) \/
  (exists r,
      region = VRegion r /\
      SoCBus.regions self' = Dict.set name r (SoCBus.regions self) /\
      SoCBus.check_region (SoCBus.regions self') = Ok None).
Proof.
  unfold SoCBus.add_region.
  destruct region as [z|r|]; try discriminate.
  destruct (SoCRegion.kind r).
  - destruct (SoCRegion.origin r) as [o|].
    + unfold bind, modify, lift, throw, ret; simpl.
      destruct (SoCBus.check_region _) as [[[n0 n1]|]|] eqn:C; try discriminate.
      intros H; inversion H; subst. right; right. exists r. auto.
    + unfold bind, modify, lift, throw, ret; simpl.
      destruct (SoCBus.alloc_region _ _ self) as [c|] eqn:A; try discriminate.
      intros H; inversion H; subst. right; left. exists c. split; [reflexivity|].
      apply alloc_region_found in A as (o & sz & _ & _ & Hc). exact Hc.
  - unfold ret. intros H; inversion H; auto.
Qed.

Lemma add_region_no_overlap (name : string) (region : value_arg) (self self' : SoCBus.t) :
  no_overlap (SoCBus.regions self) ->
  SoCBus.add_region name region self = Return tt self' ->
  no_overlap (SoCBus.regions self').
Proof.
  intros Hl H. apply add_region_regions in H as [E|[(c & E & Hc)|(r & _ & E & Hc)]].
  - now rewrite E.
  - rewrite E. apply no_overlap_set; auto. now apply first_conflict_none.
  - now apply check_region_no_overlap.
Qed.

Lemma add_slave_no_overlap (name : option string) (slave : handle) (region : option value_arg)
      (self self' : SoCBus.t) :
  no_overlap (SoCBus.regions self) ->
  SoCBus.add_slave name slave region self = Return tt self' ->
  no_overlap (SoCBus.regions self').
Proof.
  intros Hl. unfold SoCBus.add_slave.
  set (name' := match name with Some n => n | None => _ end).
  assert (Hcont : forall s s',
             no_overlap (SoCBus.regions s) ->
             bind (gets (fun self => Dict.mem name' (SoCBus.slaves self)))
                  (fun in_slaves =>
                     if in_slaves then throw (DuplicateNameError name')
                     else modify (fun self =>
                            SoCBus.with_slaves self (Dict.set name' slave (SoCBus.slaves self))))
                  s = Return tt s' ->
             no_overlap (SoCBus.regions s')).
  { intros s s' Hs. unfold bind, gets, throw, modify.
    destruct (Dict.mem name' (SoCBus.slaves s)); [discriminate|].
    intros H; inversion H; subst; exact Hs. }
  destruct region as [region|].
  - assert (forall m : py SoCBus.t unit,
               m = SoCBus.add_region name' region ->
               bind m (fun _ => bind (gets (fun self => Dict.mem name' (SoCBus.slaves self)))
                  (fun in_slaves =>
                     if in_slaves then throw (DuplicateNameError name')
                     else modify (fun self =>
                            SoCBus.with_slaves self (Dict.set name' slave (SoCBus.slaves self)))))
                    self = Return tt self' -> no_overlap (SoCBus.regions self')) as Hm.
    { intros m -> H. unfold bind at 1 in H.
      destruct (SoCBus.add_region name' region self) as [[] s|] eqn:A; [|discriminate].
      eapply Hcont; [|exact H]. eapply add_region_no_overlap; eauto. }
    destruct name; apply Hm; reflexivity.
  - destruct name as [n|]; [|discriminate].
    unfold bind at 1.
    destruct (Dict.get name' (SoCBus.regions self)); [|discriminate].
    apply Hcont; exact Hl.
Qed.

Lemma run_no_overlap (c : call) (self self' : SoCBus.t) :
  no_overlap (SoCBus.regions self) ->
  run c self = Return tt self' ->
  no_overlap (SoCBus.regions self').
Proof.
  intros Hl. destruct c as [name region|size cached|name slave region|name master]; simpl.
  - now apply add_region_no_overlap.
  - destruct (SoCBus.alloc_region size cached self); [|discriminate].
    intros H; inversion H; subst; exact Hl.
  - now apply add_slave_no_overlap.
  - unfold SoCBus.add_master.
    destruct (Dict.mem _ (SoCBus.masters self)); [discriminate|].
    intros H; inversion H; subst; exact Hl.
Qed.

Lemma for_each_invariant {S A : Type} (P : S -> Prop) (body : A -> py S unit) (l : list A) :
  (forall x s s', P s -> body x s = Return tt s' -> P s') ->
  forall s s', P s -> for_each l body s = Return tt s' -> P s'.
Proof.
  intros Hbody. induction l as [|x l IH]; intros s s' Hs; simpl.
  - unfold ret. intros H; inversion H; subst; exact Hs.
  - unfold bind. destruct (body x s) as [[] s1|] eqn:B; [|discriminate].
    apply IH. eapply Hbody; eauto.
Qed.

Lemma init_no_overlap standard data_width address_width timeout reserved_regions self :
  SoCBus.__init__ standard data_width address_width timeout reserved_regions = Ok self ->
  no_overlap (SoCBus.regions self).
Proof.
  unfold SoCBus.__init__.
  destruct (negb (existsb _ SoCBus.supported_standard)); [discriminate|].
  destruct (negb (existsb _ SoCBus.supported_data_width)); [discriminate|].
  destruct (negb (existsb _ SoCBus.supported_address_width)); [discriminate|].
  match goal with |- context [for_each ?l ?b ?s] => destruct (for_each l b s) as [[] s'|] eqn:F end;
    [|discriminate].
  intros H; inversion H; subst.
  revert F. apply (for_each_invariant (fun s => no_overlap (SoCBus.regions s))).
  - intros [name region] s s1 Hs. apply add_region_no_overlap; exact Hs.
  - apply no_overlap_empty.
Qed.

(** C1. After the constructor and any sequence of [add_region],
    [alloc_region], [add_slave] (and [add_master]) calls that all returned
    normally, any two entries of the region table that are not linker
    regions satisfy [r0.origin >= r1.origin + r1.size] or
    [r1.origin >= r0.origin + r0.size]. *)
Theorem bus_no_overlap_invariant (self : SoCBus.t) :
  completed self ->
  forall i j n0 r0 n1 r1,
    i <> j ->
    nth_error (SoCBus.regions self) i = Some (n0, r0) ->
    nth_error (SoCBus.regions self) j = Some (n1, r1) ->
    SoCRegion.kind r0 = SoCRegion.Physical ->
    SoCRegion.kind r1 = SoCRegion.Physical ->
    (exists o0 o1 s1,
        SoCRegion.origin r0 = Some o0 /\ SoCRegion.origin r1 = Some o1 /\
        SoCRegion.size r1 = Some s1 /\ o0 >= o1 + s1) \/
    (exists o1 o0 s0,
        SoCRegion.origin r1 = Some o1 /\ SoCRegion.origin r0 = Some o0 /\
        SoCRegion.size r0 = Some s0 /\ o1 >= o0 + s0).
Proof.
  intros H. change (no_overlap (SoCBus.regions self)).
  induction H as [? ? ? ? ? self H|self c self' _ IH H].
  - eapply init_no_overlap; eauto.
  - eapply run_no_overlap; eauto.
Qed.

(** Witness of [bus_no_overlap_invariant]: the bus of the module's own
    test, after its constructor and one [add_slave] that moves [rom]. *)
Lemma bus_no_overlap_invariant_witness :
  exists self,
    completed self /\
    SoCBus.regions self =
      [("rom"%string, SoCRegion.mk SoCRegion.Physical (Some 1792) (Some 1024) true);
       ("ram"%string, SoCRegion.mk SoCRegion.Physical (Some 1280) (Some 512) true)] /\
    forall i j n0 r0 n1 r1,
      i <> j ->
      nth_error (SoCBus.regions self) i = Some (n0, r0) ->
      nth_error (SoCBus.regions self) j = Some (n1, r1) ->
      SoCRegion.kind r0 = SoCRegion.Physical ->
      SoCRegion.kind r1 = SoCRegion.Physical ->
      (exists o0 o1 s1,
          SoCRegion.origin r0 = Some o0 /\ SoCRegion.origin r1 = Some o1 /\
          SoCRegion.size r1 = Some s1 /\ o0 >= o1 + s1) \/
      (exists o1 o0 s0,
          SoCRegion.origin r1 = Some o1 /\ SoCRegion.origin r0 = Some o0 /\
          SoCRegion.size r0 = Some s0 /\ o1 >= o0 + s0).
Proof.
  assert (H0 : completed main_bus).
  { apply (completed_init "wishbone" 32 32 1000000 main_reserved). reflexivity. }
  pose (c := AddSlave (Some "rom"%string) None
               (Some (VRegion (SoCRegion.mk SoCRegion.Physical None (Some 1024) true)))).
  pose (self :=
          SoCBus.with_slaves
            (SoCBus.with_regions main_bus
               [("rom"%string, SoCRegion.mk SoCRegion.Physical (Some 1792) (Some 1024) true);
                ("ram"%string, SoCRegion.mk SoCRegion.Physical (Some 1280) (Some 512) true)])
            [("rom"%string, None)]).
  assert (H1 : completed self).
  { apply (completed_call main_bus c self H0). reflexivity. }
  exists self. split; [exact H1|]. split; [reflexivity|].
  exact (bus_no_overlap_invariant self H1).
Defined.

(** ** Uncached allocation *)

(** C2. An [alloc_region] call with [cached = False] never returns a
    region: with an uncached region registered it stops in the loop that
    should collect the pool, with none registered the pool is empty.  The
    second part evaluates the call on a bus with one uncached window. *)
Theorem alloc_region_uncached_never_allocates :
  (forall self size,
      SoCBus.alloc_region (Some size) false self =
      if existsb (fun p => negb (SoCRegion.cached (snd p))) (SoCBus.regions self)
      then Err (PyNameError "name") else Err OutOfSpaceError) /\
  completed io_bus /\
  SoCBus.alloc_region (Some 0x100) false io_bus = Err (PyNameError "name").
Proof.
  split; [|split].
  - intros self size. unfold SoCBus.alloc_region. rewrite collect_uncached_spec.
    destruct (existsb _ (SoCBus.regions self)); reflexivity.
  - apply (completed_init "wishbone" 32 32 1000000 [("io"%string, VRegion io_region)]).
    reflexivity.
  - reflexivity.
Qed.

(** ** First-fit over the integers *)

Lemma existsb_eqb_In (n : Z) (l : list Z) : existsb (Z.eqb n) l = true <-> In n l.
Proof.
  rewrite existsb_exists. split.
  - intros (x & Hin & E). apply Z.eqb_eq in E. now subst.
  - intros H. exists n. split; [exact H | apply Z.eqb_refl].
Qed.

Lemma first_free_none (values : list Z) (count : nat) :
  forall n,
    (forall m, n <= m < n + Z.of_nat count -> In m values) ->
    first_free values n count = None.
Proof.
  induction count as [|count IH]; intros n H; simpl; [reflexivity|].
  assert (In n values) as Hn by (apply H; lia).
  apply existsb_eqb_In in Hn. rewrite Hn. simpl.
  apply IH. intros m Hm. apply H. lia.
Qed.

Lemma first_free_some (values : list Z) (count : nat) (m : Z) :
  forall n,
    first_free values n count = Some m ->
    n <= m < n + Z.of_nat count /\ ~ In m values /\
    forall k, n <= k < m -> In k values.
Proof.
  induction count as [|count IH]; intros n H; simpl in H; [discriminate|].
  destruct (existsb (Z.eqb n) values) eqn:E; simpl in H.
  - apply IH in H as (Hr & Hfree & Hlow). repeat split; try lia; auto.
    intros k Hk. destruct (Z.eq_dec k n) as [->|Hne].
    + now apply existsb_eqb_In.
    + apply Hlow. lia.
  - inversion H; subst m. split; [lia|]. split; [|intros k Hk; lia].
    intros Hin. apply existsb_eqb_In in Hin. congruence.
Qed.

(** ** The CSR allocator *)

Lemma csr_add_fields (name : string) (n : option Z) (reuse : bool) (self self' : SoCCSR.t) (l : Z) :
  SoCCSR.add name n reuse self = Return l self' ->
  SoCCSR.data_width self' = SoCCSR.data_width self /\
  SoCCSR.address_width self' = SoCCSR.address_width self /\
  SoCCSR.paging self' = SoCCSR.paging self /\
  SoCCSR.n_csrs self' = SoCCSR.n_csrs self.
Proof.
  unfold SoCCSR.add.
  destruct (negb (reuse && Dict.mem name (SoCCSR.csrs self))).
  - destruct (Dict.mem name (SoCCSR.csrs self)); [discriminate|].
    destruct (in_values n (SoCCSR.csrs self)); [discriminate|].
    destruct n as [n|].
    + destruct (n <? 0); [discriminate|]. destruct (n >? SoCCSR.n_csrs self); [discriminate|].
      intros H; inversion H; subst; simpl; auto.
    + destruct (SoCCSR.alloc name self); [|discriminate].
      intros H; inversion H; subst; simpl; auto.
  - destruct (Dict.get name (SoCCSR.csrs self)); [|discriminate].
    intros H; inversion H; subst; auto.
Qed.

(** What the constructor stores, and what [alloc] walks. *)
Lemma csr_init_capacity data_width address_width alignment paging reserved_csrs self :
  SoCCSR.__init__ data_width address_width alignment paging reserved_csrs = Ok self ->
  SoCCSR.n_csrs self = 4 * 2 ^ address_width / paging /\
  SoCCSR.alloc_range self = data_width / 8 * 2 ^ address_width / paging.
Proof.
  unfold SoCCSR.__init__.
  destruct (negb (existsb _ SoCCSR.supported_data_width)); [discriminate|].
  destruct (negb (existsb _ SoCCSR.supported_address_width)); [discriminate|].
  destruct (negb (existsb _ SoCCSR.supported_alignment)); [discriminate|].
  destruct (negb (existsb _ SoCCSR.supported_paging)); [discriminate|].
  match goal with |- context [for_each ?l ?b ?s] => destruct (for_each l b s) as [[] s'|] eqn:F end;
    [|discriminate].
  intros H; inversion H; subst self.
  revert F.
  apply (for_each_invariant
           (fun s => SoCCSR.n_csrs s = 4 * 2 ^ address_width / paging /\
                     SoCCSR.alloc_range s = data_width / 8 * 2 ^ address_width / paging)).
  - intros [name n] s s1 [Hn Hr]. unfold bind, ret.
    destruct (SoCCSR.add name n false s) as [l s2|] eqn:A; [|discriminate].
    intros E; inversion E; subst s2.
    apply csr_add_fields in A as (D & A & P & N).
    unfold SoCCSR.alloc_range in *. rewrite D, A, P, N. auto.
  - simpl. auto.
Qed.

(** C3. With [data_width = 8] the constructor succeeds and stores
    [n_csrs = 32], while [data_width/8 * 2^address_width / paging] is [8],
    and [8] is the bound of the range that [alloc] scans. *)
Theorem csr_capacity_data_width_8 :
  exists self,
    SoCCSR.__init__ 8 14 32 0x800 [] = Ok self /\
    SoCCSR.n_csrs self = 32 /\
    8 / 8 * 2 ^ 14 / 0x800 = 8 /\
    SoCCSR.alloc_range self = 8.
Proof.
  eexists. repeat split.
Qed.

(** An [add] without a location on a table that holds every location of
    the scanned range fails and changes nothing. *)
Lemma csr_add_exhausted (name : string) (reuse : bool) (self : SoCCSR.t) :
  Dict.mem name (SoCCSR.csrs self) = false ->
  (forall n, 0 <= n < SoCCSR.alloc_range self -> In n (Dict.values (SoCCSR.csrs self))) ->
  SoCCSR.add name None reuse self = Raise OutOfSpaceError self.
Proof.
  intros Hname Hfull. unfold SoCCSR.add, SoCCSR.alloc. rewrite Hname.
  rewrite andb_false_r. simpl.
  rewrite first_free_none; [reflexivity|].
  intros m Hm. apply Hfull. lia.
Qed.

(** C6. A CSR table built from the reserved entries [csr1:1 .. csr32:32]
    holds [n_csrs = 32] entries, and a further [add] without a location
    returns normally with location [0], leaving [33] entries. *)
Theorem csr_full_table_still_allocates :
  exists self self',
    SoCCSR.__init__ 32 14 32 0x800 csrs_1_to_32 = Ok self /\
    Z.of_nat (Dict.len (SoCCSR.csrs self)) = SoCCSR.n_csrs self /\
    SoCCSR.add "extra" None false self = Return 0 self' /\
    Dict.len (SoCCSR.csrs self') = 33%nat /\
    Dict.get "csr32" (SoCCSR.csrs self') = Some 32.
Proof.
  eexists. eexists. split; [vm_compute; reflexivity|].
  split; [vm_compute; reflexivity|].
  split; [vm_compute; reflexivity|].
  split; vm_compute; reflexivity.
Qed.

(** C7. An [add] of a new name at an explicit location no entry holds
    fails with the range error exactly when [n < 0] or [n > n_csrs];
    otherwise it registers the pair, so [n = n_csrs] is registered. *)
Theorem csr_add_explicit_range (name : string) (n : Z) (reuse : bool) (self : SoCCSR.t) :
  Dict.mem name (SoCCSR.csrs self) = false ->
  in_values (Some n) (SoCCSR.csrs self) = false ->
  ((exists self', SoCCSR.add name (Some n) reuse self = Raise RangeError self') <->
   (n < 0 \/ n > SoCCSR.n_csrs self)) /\
  (0 <= n <= SoCCSR.n_csrs self ->
   SoCCSR.add name (Some n) reuse self =
   Return n (SoCCSR.with_csrs self (Dict.set name n (SoCCSR.csrs self)))) /\
  (0 <= SoCCSR.n_csrs self ->
   n = SoCCSR.n_csrs self ->
   SoCCSR.add name (Some n) reuse self =
   Return n (SoCCSR.with_csrs self (Dict.set name n (SoCCSR.csrs self)))).
Proof.
  intros Hname Hloc.
  assert (E : SoCCSR.add name (Some n) reuse self =
              if n <? 0 then Raise RangeError self
              else if n >? SoCCSR.n_csrs self then Raise RangeError self
              else Return n (SoCCSR.with_csrs self (Dict.set name n (SoCCSR.csrs self)))).
  { unfold SoCCSR.add. rewrite Hname, andb_false_r. simpl negb. cbv iota.
    rewrite Hloc. reflexivity. }
  rewrite E.
  destruct (Z.ltb_spec n 0); [|destruct (Z.gtb_spec n (SoCCSR.n_csrs self))].
  - repeat split; try lia. eauto.
  - repeat split; try lia. eauto.
  - repeat split; try lia; auto. intros [s H']; discriminate.
Qed.

(** Witness of [csr_add_explicit_range]: location [32] on an allocator
    with [n_csrs = 32]. *)
Lemma csr_add_explicit_range_witness :
  exists self,
    SoCCSR.__init__ 32 14 32 0x800 ctrl_uart = Ok self /\
    SoCCSR.n_csrs self = 32 /\
    SoCCSR.add "csr2" (Some 32) false self =
    Return 32 (SoCCSR.with_csrs self (Dict.set "csr2" 32 (SoCCSR.csrs self))).
Proof.
  pose (self := SoCCSR.mk 32 14 32 0x800 [("ctrl"%string, 0); ("uart"%string, 1)] 32).
  exists self. split; [reflexivity|]. split; [reflexivity|].
  refine (proj2 (proj2 (csr_add_explicit_range "csr2" 32 false self eq_refl eq_refl)) _ eq_refl).
  simpl; lia.
Defined.

(** C8. On a table that binds [name], [add(name, use_loc_if_exists=True)]
    ends with the bound location and leaves the allocator as it was, and
    so does a second such call; the table and its length are unchanged. *)
Theorem csr_add_reuse_idempotent (name : string) (n1 n2 : option Z) (loc : Z) (self : SoCCSR.t) :
  Dict.get name (SoCCSR.csrs self) = Some loc ->
  exists self1 self2,
    SoCCSR.add name n1 true self = Return loc self1 /\
    SoCCSR.add name n2 true self1 = Return loc self2 /\
    SoCCSR.csrs self1 = SoCCSR.csrs self /\
    SoCCSR.csrs self2 = SoCCSR.csrs self /\
    self2 = self /\
    Dict.len (SoCCSR.csrs self2) = Dict.len (SoCCSR.csrs self).
Proof.
  intros H.
  assert (M : Dict.mem name (SoCCSR.csrs self) = true) by (apply mem_get; eauto).
  assert (E : forall n, SoCCSR.add name n true self = Return loc self).
  { intros n. unfold SoCCSR.add. rewrite M, H. reflexivity. }
  exists self, self. rewrite !E. repeat split; reflexivity.
Qed.

(** Witness of [csr_add_reuse_idempotent]: [uart] is bound to [1]. *)
Lemma csr_add_reuse_idempotent_witness :
  exists self self1 self2,
    SoCCSR.__init__ 32 14 32 0x800 ctrl_uart = Ok self /\
    SoCCSR.add "uart" None true self = Return 1 self1 /\
    SoCCSR.add "uart" None true self1 = Return 1 self2 /\
    self2 = self.
Proof.
  pose (self := SoCCSR.mk 32 14 32 0x800 [("ctrl"%string, 0); ("uart"%string, 1)] 32).
  destruct (csr_add_reuse_idempotent "uart" None None 1 self eq_refl)
    as (self1 & self2 & A1 & A2 & _ & _ & E & _).
  exists self, self1, self2. split; [reflexivity|]. auto.
Defined.

(** ** The IRQ allocator *)

(** C9. On every IRQ allocator that the constructor returns for the
    reserved entries [{uart: 1}], [add("timer")] ends with line [0] and
    binds it, and a second [add("timer")] fails on the duplicate name and
    leaves the table as it was. *)
Theorem irq_timer_scenario (n_irqs : Z) (self : SoCIRQ.t) :
  SoCIRQ.__init__ n_irqs [("uart"%string, Some 1)] = Ok self ->
  exists self1,
    SoCIRQ.add "timer" None self = Return 0 self1 /\
    SoCIRQ.irqs self1 = [("uart"%string, 1); ("timer"%string, 0)] /\
    SoCIRQ.add "timer" None self1 = Raise (DuplicateNameError "timer") self1.
Proof.
  unfold SoCIRQ.__init__.
  destruct (n_irqs >? 32); [discriminate|].
  simpl. unfold bind, ret, SoCIRQ.add. simpl.
  destruct (Z.gtb_spec 1 n_irqs) as [Hlt|Hge]; [discriminate|].
  intros H; inversion H; subst self. clear H.
  unfold SoCIRQ.alloc. simpl.
  destruct (Z.to_nat n_irqs) as [|k] eqn:K; [lia|]. simpl.
  eexists. repeat split.
Qed.

(** Witness of [irq_timer_scenario]: the default of [32] lines. *)
Lemma irq_timer_scenario_witness :
  exists self self1,
    SoCIRQ.__init__ 32 [("uart"%string, Some 1)] = Ok self /\
    SoCIRQ.add "timer" None self = Return 0 self1 /\
    SoCIRQ.irqs self1 = [("uart"%string, 1); ("timer"%string, 0)] /\
    SoCIRQ.add "timer" None self1 = Raise (DuplicateNameError "timer") self1.
Proof.
  pose (self := SoCIRQ.mk 32 [("uart"%string, 1)]).
  destruct (irq_timer_scenario 32 self eq_refl) as (self1 & A & B & C).
  exists self, self1. split; [reflexivity|]. auto.
Defined.

(** ** Overlap on an explicit add *)

Lemma pair_overlaps_defined (r0 r1 : SoCRegion.t) :
  (SoCRegion.kind r0 = SoCRegion.Physical ->
   exists o s, SoCRegion.origin r0 = Some o /\ SoCRegion.size r0 = Some s) ->
  (SoCRegion.kind r1 = SoCRegion.Physical ->
   exists o s, SoCRegion.origin r1 = Some o /\ SoCRegion.size r1 = Some s) ->
  exists b, SoCBus.pair_overlaps r0 r1 = Ok b.
Proof.
  unfold SoCBus.pair_overlaps, SoCRegion.is_linker. intros H0 H1.
  destruct (SoCRegion.kind r0); [|simpl; eauto].
  destruct (SoCRegion.kind r1); [|simpl; eauto].
  destruct (H0 eq_refl) as (o0 & s0 & O0 & S0).
  destruct (H1 eq_refl) as (o1 & s1 & O1 & S1).
  rewrite O0, S0, O1, S1. simpl.
  destruct (o0 >=? o1 + s1); [eauto|]. destruct (o1 >=? o0 + s0); eauto.
Qed.

Lemma sized_cons (p : string * SoCRegion.t) (l : Dict.t SoCRegion.t) :
  sized (p :: l) -> sized l.
Proof. intros H n r Hin. apply (H n r). now right. Qed.

Lemma check_against_defined (n0 : string) (r0 : SoCRegion.t) (rest : Dict.t SoCRegion.t) :
  sized ((n0, r0) :: rest) -> exists x, SoCBus.check_against r0 rest = Ok x.
Proof.
  induction rest as [|[n r] rest IH]; intros H; simpl; [eauto|].
  destruct (pair_overlaps_defined r0 r) as [b P].
  - apply (H n0 r0). now left.
  - apply (H n r). right; now left.
  - rewrite P. simpl. destruct b; [eauto|]. apply IH.
    intros m x [E|Hin]; [apply (H m x); left | apply (H m x); right; right]; auto.
Qed.

Lemma check_region_defined (l : Dict.t SoCRegion.t) :
  sized l -> exists x, SoCBus.check_region l = Ok x.
Proof.
  induction l as [|[n r] l IH]; intros H; simpl; [eauto|].
  destruct (check_against_defined n r l H) as [x C]. rewrite C. simpl.
  destruct x as [n1|]; [eauto|]. apply IH. eapply sized_cons; eauto.
Qed.

(** C5, as the code has it.  On a table whose physical entries are sized
    and pairwise disjoint, adding a sized physical region that overlaps a
    physical region registered under another name fails with the overlap
    error; the two names it reports are the new name and the name of a
    registered region that overlaps the new one; and the bus the call
    leaves behind holds the new region under its name. *)
Theorem add_region_overlap_reported
        (name : string) (r : SoCRegion.t) (o s : Z) (self : SoCBus.t) :
  SoCRegion.kind r = SoCRegion.Physical ->
  SoCRegion.origin r = Some o ->
  SoCRegion.size r = Some s ->
  sized (SoCBus.regions self) ->
  no_overlap (SoCBus.regions self) ->
  (exists n' r',
      n' <> name /\ In (n', r') (SoCBus.regions self) /\
      SoCRegion.kind r' = SoCRegion.Physical /\ overlapping r' r) ->
  exists n0 n1 other r_other,
    SoCBus.add_region name (VRegion r) self =
    Raise (OverlapError n0 n1)
          (SoCBus.with_regions self (Dict.set name r (SoCBus.regions self))) /\
    ((n0 = name /\ n1 = other) \/ (n0 = other /\ n1 = name)) /\
    In (other, r_other) (SoCBus.regions self) /\
    overlapping r_other r /\
    In (name, r) (Dict.set name r (SoCBus.regions self)).
Proof.
  intros K O Sz Hsized Hno (n' & r' & Hne & Hin' & K' & Hov).
  set (l := SoCBus.regions self) in *.
  set (l' := Dict.set name r l).
  assert (Hsized' : sized l').
  { intros n x Hx Kx. apply in_set_inv in Hx as [E|Hx].
    - inversion E; subst. eauto.
    - eapply Hsized; eauto. }
  assert (Heval : forall x, SoCBus.check_region l' = Ok x ->
            SoCBus.add_region name (VRegion r) self =
            match x with
            | Some (n0, n1) => Raise (OverlapError n0 n1) (SoCBus.with_regions self l')
            | None => Return tt (SoCBus.with_regions self l')
            end).
  { intros x C. unfold SoCBus.add_region. rewrite K, O.
    unfold bind, modify, lift, throw, ret. simpl. fold l l'. rewrite C.
    destruct x as [[n0 n1]|]; reflexivity. }
  destruct (check_region_defined l' Hsized') as [[[n0 n1]|] C].
  - rewrite (Heval _ C).
    destruct (check_region_some _ _ _ C) as (i & j & r0 & r1 & Hij & Hi & Hj & P).
    apply pair_overlaps_true in P as (K0 & K1 & Hov01).
    unfold l' in Hi, Hj. rewrite nth_error_set in Hi, Hj.
    destruct (Nat.eqb_spec i (Dict.index name l)) as [Ei|Ei];
      destruct (Nat.eqb_spec j (Dict.index name l)) as [Ej|Ej].
    + lia.
    + inversion Hi; subst n0 r0. exists name, n1, n1, r1.
      split; [reflexivity|]. split; [now left|].
      split; [eapply nth_error_In; eauto|].
      split; [now apply overlapping_sym | apply set_in_new].
    + inversion Hj; subst n1 r1. exists n0, name, n0, r0.
      split; [reflexivity|]. split; [now right|].
      split; [eapply nth_error_In; eauto|].
      split; [assumption | apply set_in_new].
    + exfalso. apply (overlapping_not_disjoint r0 r1 Hov01).
      apply (Hno i j n0 r0 n1 r1); auto. lia.
  - exfalso.
    assert (H1 : In (n', r') l') by (apply set_in_old; auto).
    assert (H2 : In (name, r) l') by apply set_in_new.
    apply In_nth_error in H1 as [i Hi]. apply In_nth_error in H2 as [j Hj].
    apply (overlapping_not_disjoint r' r Hov).
    apply (check_region_no_overlap l' C i j n' r' name r); auto.
    intros ->. rewrite Hi in Hj. inversion Hj. congruence.
Qed.

(** Witness of [add_region_overlap_reported], on the bus of the module's
    test: [boot] collides with [rom]. *)
Lemma add_region_overlap_reported_witness :
  exists n0 n1 other r_other,
    SoCBus.add_region "boot"
      (VRegion (SoCRegion.mk SoCRegion.Physical (Some 0x200) (Some 0x100) true)) main_bus =
    Raise (OverlapError n0 n1)
          (SoCBus.with_regions main_bus
             (Dict.set "boot" (SoCRegion.mk SoCRegion.Physical (Some 0x200) (Some 0x100) true)
                       (SoCBus.regions main_bus))) /\
    ((n0 = "boot"%string /\ n1 = other) \/ (n0 = other /\ n1 = "boot"%string)) /\
    In (other, r_other) (SoCBus.regions main_bus) /\
    overlapping r_other (SoCRegion.mk SoCRegion.Physical (Some 0x200) (Some 0x100) true) /\
    In ("boot"%string, SoCRegion.mk SoCRegion.Physical (Some 0x200) (Some 0x100) true)
       (Dict.set "boot" (SoCRegion.mk SoCRegion.Physical (Some 0x200) (Some 0x100) true)
                 (SoCBus.regions main_bus)).
Proof.
  apply (add_region_overlap_reported "boot" _ 0x200 0x100 main_bus); try reflexivity.
  - intros n x Hin _. simpl in Hin.
    destruct Hin as [E|[E|[]]]; inversion E; subst; simpl; eauto.
  - apply check_region_no_overlap. reflexivity.
  - exists "rom"%string, (SoCRegion.mk SoCRegion.Physical (Some 0x100) (Some 1024) true).
    split; [discriminate|]. split; [now left|]. split; [reflexivity|].
    exists 0x100, 1024, 0x200, 0x100. repeat split; reflexivity.
Defined.

(** C5, as the claim states it, fails: the call that reports the overlap
    of [boot] with [rom] leaves [boot] in the table, and a region that
    overlaps [rom] but is added under the name [rom] is accepted in its
    place. *)
Lemma add_region_overlap_not_rolled_back :
  let boot := SoCRegion.mk SoCRegion.Physical (Some 0x200) (Some 0x100) true in
  (exists self',
      SoCBus.add_region "boot" (VRegion boot) main_bus =
      Raise (OverlapError "rom" "boot") self' /\
      Dict.get "boot" (SoCBus.regions main_bus) = None /\
      Dict.get "boot" (SoCBus.regions self') = Some boot /\
      SoCBus.regions self' <> SoCBus.regions main_bus) /\
  (exists self',
      SoCBus.add_region "rom" (VRegion boot) main_bus = Return tt self' /\
      Dict.get "rom" (SoCBus.regions self') = Some boot).
Proof.
  split.
  - eexists. split; [reflexivity|]. split; [reflexivity|]. split; [reflexivity|].
    discriminate.
  - eexists. split; reflexivity.
Qed.

(** ** The decoder *)

Lemma log2_int_round_up (s : Z) :
  0 <= s -> log2_int s false = Ok (Z.log2_up s).
Proof.
  intros Hs. unfold log2_int, bit_length. simpl andb. cbv iota.
  destruct (Z.eqb_spec s 0) as [->|Hz]; [reflexivity|].
  destruct (Z.eqb_spec (s - 1) 0) as [E|E].
  - replace s with 1 by lia. reflexivity.
  - f_equal. unfold Z.log2_up.
    destruct (Z.compare_spec 1 s); try lia.
    rewrite Z.abs_eq by lia. unfold Z.succ, Z.pred. reflexivity.
Qed.

Lemma log2_up_least (s : Z) :
  0 <= s ->
  s <= 2 ^ Z.log2_up s /\ forall j, 0 <= j -> s <= 2 ^ j -> 2 ^ Z.log2_up s <= 2 ^ j.
Proof.
  intros Hs. destruct (Z.le_gt_cases s 1) as [H1|H1].
  - assert (E : Z.log2_up s = 0) by (apply Z.log2_up_eqn0; exact H1).
    rewrite E. simpl. split; [lia|]. intros j Hj _.
    change 1 with (2 ^ 0). apply Z.pow_le_mono_r; lia.
  - destruct (Z.log2_up_spec s H1) as [Hlo Hhi]. split; [exact Hhi|].
    intros j Hj Hle. apply Z.pow_le_mono_r; [lia|].
    destruct (Z.le_gt_cases (Z.log2_up s) j) as [|Hlt]; [assumption|].
    exfalso. assert (2 ^ j <= 2 ^ Z.pred (Z.log2_up s)) by (apply Z.pow_le_mono_r; lia).
    lia.
Qed.

Lemma log2_int_pow2 (m : Z) : 0 <= m -> log2_int (2 ^ m) true = Ok m.
Proof.
  intros Hm. unfold log2_int, bit_length.
  assert (0 < 2 ^ m) by (apply Z.pow_pos_nonneg; lia).
  destruct (Z.eqb_spec (2 ^ m) 0); [lia|].
  destruct (Z.eqb_spec (2 ^ m - 1) 0) as [E|E].
  - assert (m = 0).
    { destruct (Z.eq_dec m 0); [assumption|].
      assert (2 ^ 1 <= 2 ^ m) by (apply Z.pow_le_mono_r; lia). simpl in *. lia. }
    subst m. reflexivity.
  - assert (0 < m).
    { destruct (Z.eq_dec m 0) as [->|]; [simpl in E; lia | lia]. }
    rewrite Z.abs_eq by lia.
    change (2 ^ m - 1) with (Z.pred (2 ^ m)). rewrite Z.log2_pred_pow2 by assumption.
    replace (Z.pred m + 1) with m by lia.
    rewrite Z.shiftl_1_l, Z.eqb_refl. reflexivity.
Qed.

(** The exponent of the window in word units: [log2_int(size >> 2)] for
    the rounded size [2 ^ k]. *)
Lemma log2_int_words (k : Z) :
  0 <= k -> log2_int (Z.shiftr (2 ^ k) 2) true = Ok (Z.max (k - 2) 0).
Proof.
  intros Hk. destruct (Z.lt_ge_cases k 2) as [Hlt|Hge].
  - assert (k = 0 \/ k = 1) as [->| ->] by lia; reflexivity.
  - rewrite Z.shiftr_div_pow2 by lia.
    replace (2 ^ k / 2 ^ 2) with (2 ^ (k - 2)).
    + rewrite Z.max_l by lia. apply log2_int_pow2. lia.
    + replace k with ((k - 2) + 2) at 2 by lia.
      rewrite Z.pow_add_r by lia. rewrite Z.div_mul; [reflexivity|]. simpl; lia.
Qed.

Lemma div_mod_pow2 (v lo n : Z) :
  0 <= lo <= n -> (v / 2 ^ lo) mod 2 ^ (n - lo) = (v mod 2 ^ n) / 2 ^ lo.
Proof.
  intros H.
  assert (0 < 2 ^ lo) by (apply Z.pow_pos_nonneg; lia).
  assert (0 < 2 ^ (n - lo)) by (apply Z.pow_pos_nonneg; lia).
  assert (E : 2 ^ n = 2 ^ lo * 2 ^ (n - lo)).
  { rewrite <- Z.pow_add_r by lia. f_equal. lia. }
  rewrite E, Z.rem_mul_r by lia.
  rewrite (Z.mul_comm (2 ^ lo)), Z.div_add by lia.
  rewrite (Z.div_small (v mod 2 ^ lo)); [reflexivity|]. apply Z.mod_pos_bound; lia.
Qed.

Lemma slice_to_top (a : Signal) (lo : Z) :
  0 <= lo < nbits a - 1 ->
  slice a lo (-1) = (value a mod 2 ^ (nbits a - 1)) / 2 ^ lo.
Proof.
  intros H. unfold slice, slice_indices.
  change (-1 <? 0) with true. cbv iota.
  rewrite (Z.min_l lo (nbits a)) by lia.
  replace (Z.max (-1 + nbits a) 0) with (nbits a - 1) by lia.
  destruct (Z.leb_spec (nbits a - 1) lo); [lia|].
  rewrite Z.land_ones by lia. rewrite Z.shiftr_div_pow2 by lia.
  apply div_mod_pow2. lia.
Qed.

Lemma div_eq_window (x ow lo : Z) :
  0 <= lo -> ow mod 2 ^ lo = 0 ->
  (x / 2 ^ lo = ow / 2 ^ lo <-> ow <= x < ow + 2 ^ lo).
Proof.
  intros Hlo Hal.
  assert (Hpos : 0 < 2 ^ lo) by (apply Z.pow_pos_nonneg; lia).
  pose proof (Z.div_mod ow (2 ^ lo) ltac:(lia)) as Ho. rewrite Hal in Ho.
  pose proof (Z.div_mod x (2 ^ lo) ltac:(lia)) as Hx.
  pose proof (Z.mod_pos_bound x (2 ^ lo) Hpos) as Hb.
  split.
  - intros E. rewrite E in Hx. lia.
  - intros Hw. symmetry. apply (Z.div_unique x (2 ^ lo) (ow / 2 ^ lo) (x - ow)); lia.
Qed.

Lemma aligned_words (o' k : Z) :
  0 <= k -> o' mod 2 ^ k = 0 -> (Z.shiftr o' 2) mod 2 ^ Z.max (k - 2) 0 = 0.
Proof.
  intros Hk Hal. destruct (Z.lt_ge_cases k 2) as [Hlt|Hge].
  - rewrite Z.max_r by lia. simpl. apply Z.mod_1_r.
  - rewrite Z.max_l by lia. rewrite Z.shiftr_div_pow2 by lia.
    apply Z.mod_divide in Hal; [|apply Z.pow_nonzero; lia].
    destruct Hal as [q Hq].
    replace k with ((k - 2) + 2) in Hq by lia. rewrite Z.pow_add_r in Hq by lia.
    rewrite Hq, Z.mul_assoc, Z.div_mul by (simpl; lia).
    apply Z.mod_mul. apply Z.pow_nonzero; lia.
Qed.

Lemma clear_top_bit (o n : Z) :
  0 <= n ->
  Z.testbit (Z.land o (Z.lnot 0x80000000)) n = if n =? 31 then false else Z.testbit o n.
Proof.
  intros Hn. rewrite Z.land_spec, Z.lnot_spec by assumption.
  change 0x80000000 with (2 ^ 31). rewrite Z.pow2_bits_eqb by lia.
  rewrite (Z.eqb_sym 31 n). destruct (n =? 31); simpl.
  - apply andb_false_r.
  - apply andb_true_r.
Qed.

(** C4, as the code has it.  For a region with origin [o] and size
    [s >= 0]: the size is rounded up to [2 ^ k], the least power of two
    that is not below [s]; [o'] is [o] with bit 31 cleared; the decoder
    fails with the alignment error when [o'] is not a multiple of
    [2 ^ k]; otherwise its predicate compares [a[lo:-1]], the bits of the
    address from [lo = log2 (2 ^ k >> 2)] up to but without the top bit
    of the signal, with [(o' >> 2) >> lo].  So it accepts the addresses
    that, once their top bit is dropped, lie in the window of [2 ^ lo]
    words at [o' >> 2]. *)
Theorem decoder_window (r : SoCRegion.t) (o s : Z) :
  SoCRegion.origin r = Some o ->
  SoCRegion.size r = Some s ->
  0 <= s ->
  let k := Z.log2_up s in
  let o' := Z.land o (Z.lnot 0x80000000) in
  let lo := Z.max (k - 2) 0 in
  (s <= 2 ^ k /\ forall j, 0 <= j -> s <= 2 ^ j -> 2 ^ k <= 2 ^ j) /\
  (forall n, 0 <= n -> Z.testbit o' n = if n =? 31 then false else Z.testbit o n) /\
  (o' mod 2 ^ k <> 0 -> SoCRegion.decoder r = Err AlignmentError) /\
  (o' mod 2 ^ k = 0 ->
   exists p,
     SoCRegion.decoder r = Ok p /\
     forall a,
       lo < nbits a - 1 ->
       p a = Ok (slice a lo (-1) =? Z.shiftr (Z.shiftr o' 2) lo) /\
       (p a = Ok true <->
        Z.shiftr o' 2 <= value a mod 2 ^ (nbits a - 1) < Z.shiftr o' 2 + 2 ^ lo)).
Proof.
  intros O Sz Hs k o' lo.
  assert (Hk : 0 <= k) by apply Z.log2_up_nonneg.
  assert (Hlo : 0 <= lo) by (unfold lo; lia).
  assert (Hal : Z.land o' (2 ^ k - 1) = o' mod 2 ^ k).
  { change (2 ^ k - 1) with (Z.pred (2 ^ k)). rewrite <- Z.ones_equiv.
    apply Z.land_ones. exact Hk. }
  split; [apply log2_up_least; exact Hs|].
  split; [intros n Hn; apply clear_top_bit; exact Hn|].
  unfold SoCRegion.decoder. rewrite O, Sz, (log2_int_round_up s Hs). cbn [rbind].
  fold k. fold o'. rewrite Hal.
  split.
  - intros Hne. destruct (Z.eqb_spec (o' mod 2 ^ k) 0); [contradiction|reflexivity].
  - intros He. rewrite He. simpl negb. cbv iota.
    eexists. split; [reflexivity|].
    intros a Ha. cbv beta.
    rewrite (log2_int_words k Hk). cbn [rbind]. fold lo.
    split; [reflexivity|].
    rewrite slice_to_top by lia.
    rewrite (Z.shiftr_div_pow2 (Z.shiftr o' 2) lo) by exact Hlo.
    split.
    + intros E. inversion E as [E']. apply Z.eqb_eq in E'.
      apply div_eq_window in E'; auto. apply aligned_words; auto.
    + intros Hw. f_equal. apply Z.eqb_eq.
      apply div_eq_window; auto. apply aligned_words; auto.
Qed.

(** Witness of [decoder_window]: a window of [0x1000] bytes at
    [0x10000000], seen from a 30-bit word address. *)
Lemma decoder_window_witness :
  exists p,
    SoCRegion.decoder (SoCRegion.mk SoCRegion.Physical (Some 0x10000000) (Some 0x1000) true)
    = Ok p /\
    forall a,
      10 < nbits a - 1 ->
      (p a = Ok true <->
       0x4000000 <= value a mod 2 ^ (nbits a - 1) < 0x4000000 + 0x400).
Proof.
  pose (r := SoCRegion.mk SoCRegion.Physical (Some 0x10000000) (Some 0x1000) true).
  destruct (decoder_window r 0x10000000 0x1000 eq_refl eq_refl ltac:(lia))
    as (_ & _ & _ & H).
  destruct (H eq_refl) as (p & Hp & Hspec).
  exists p. split; [exact Hp|].
  intros a Ha. exact (proj2 (Hspec a Ha)).
Defined.

(** C4, as the claim states it, fails: the predicate of the window of
    [0x1000] bytes at [0x10000000] accepts the 30-bit word address
    [0x24000000], whose bits above the low ten are [0x90000] and not
    [0x10000 = (origin >> 2) >> 10]; the address differs from one in the
    window by its top bit. *)
Lemma decoder_accepts_top_bit_alias :
  exists p,
    SoCRegion.decoder (SoCRegion.mk SoCRegion.Physical (Some 0x10000000) (Some 0x1000) true)
    = Ok p /\
    p (mkSignal 30 0x24000000) = Ok true /\
    Z.shiftr 0x24000000 10 = 0x90000 /\
    Z.shiftr (Z.shiftr 0x10000000 2) 10 = 0x10000 /\
    Z.shiftr 0x24000000 10 <> Z.shiftr (Z.shiftr 0x10000000 2) 10.
Proof.
  eexists. split; [reflexivity|]. split; [reflexivity|].
  split; [reflexivity|]. split; [reflexivity|]. discriminate.
Qed.

(** * Further properties of the code *)

(** ** The overlap check, continued *)

Lemma check_against_first (r0 : SoCRegion.t) (rest : Dict.t SoCRegion.t) (n1 : string) :
  SoCBus.check_against r0 rest = Ok (Some n1) ->
  exists j r1,
    nth_error rest j = Some (n1, r1) /\ SoCBus.pair_overlaps r0 r1 = Ok true /\
    forall j' n r, (j' < j)%nat -> nth_error rest j' = Some (n, r) ->
                   SoCBus.pair_overlaps r0 r = Ok false.
Proof.
  induction rest as [|[n r] rest IH]; simpl; intros H; [discriminate|].
  destruct (SoCBus.pair_overlaps r0 r) as [[|]|] eqn:P; simpl in H; try discriminate.
  - inversion H; subst. exists O, r. repeat split; auto. intros j' ? ? Hlt. lia.
  - destruct (IH H) as (j & r1 & Hj & Hp & Hfirst). exists (S j), r1.
    repeat split; auto. intros [|j'] m x Hlt Hx; simpl in Hx.
    + inversion Hx; subst. exact P.
    + apply (Hfirst j' m x); auto. lia.
Qed.

Lemma check_region_first (l : Dict.t SoCRegion.t) (n0 n1 : string) :
  SoCBus.check_region l = Ok (Some (n0, n1)) ->
  exists i j r0 r1,
    (i < j)%nat /\ nth_error l i = Some (n0, r0) /\ nth_error l j = Some (n1, r1) /\
    SoCBus.pair_overlaps r0 r1 = Ok true /\
    forall i' j' na a nb b,
      (i' < j')%nat -> (i' < i \/ (i' = i /\ j' < j))%nat ->
      nth_error l i' = Some (na, a) -> nth_error l j' = Some (nb, b) ->
      SoCBus.pair_overlaps a b = Ok false.
Proof.
  induction l as [|[n r] l IH]; simpl; intros H; [discriminate|].
  destruct (SoCBus.check_against r l) as [[m|]|] eqn:C; simpl in H; try discriminate.
  - inversion H; subst.
    destruct (check_against_first _ _ _ C) as (j & r1 & Hj & Hp & Hfirst).
    exists O, (S j), r, r1. repeat split; auto; [lia|].
    intros i' j' na a nb b Hlt Hlex Ha Hb.
    destruct Hlex as [Hlex|[-> Hlex]]; [lia|].
    destruct j' as [|j']; [lia|]. simpl in Ha, Hb. inversion Ha; subst.
    apply (Hfirst j' nb b); auto. lia.
  - destruct (IH H) as (i & j & r0 & r1 & Hij & Hi & Hj & Hp & Hfirst).
    exists (S i), (S j), r0, r1. repeat split; auto; [lia|].
    intros i' j' na a nb b Hlt Hlex Ha Hb.
    destruct j' as [|j']; [lia|]. simpl in Hb.
    destruct i' as [|i']; simpl in Ha.
    + inversion Ha; subst. eapply check_against_none; eauto.
    + apply (Hfirst i' j' na a nb b); auto; lia.
Qed.

Lemma pair_overlaps_false_not_overlapping (a b : SoCRegion.t) :
  SoCBus.pair_overlaps a b = Ok false ->
  ~ (SoCRegion.kind a = SoCRegion.Physical /\ SoCRegion.kind b = SoCRegion.Physical /\
     overlapping a b).
Proof.
  intros P (Ka & Kb & Hov). apply (overlapping_not_disjoint a b Hov).
  apply pair_overlaps_false; auto.
Qed.

(** X1. On a table whose physical entries have origin and size set,
    [check_region] returns [None] exactly when every two physical entries
    are disjoint. *)
Theorem check_region_decides_no_overlap (l : Dict.t SoCRegion.t) :
  sized l ->
  (SoCBus.check_region l = Ok None <-> no_overlap l).
Proof.
  intros Hs. split; [apply check_region_no_overlap|].
  intros Hno. destruct (check_region_defined l Hs) as [[[n0 n1]|] C]; [|exact C].
  exfalso. destruct (check_region_some _ _ _ C) as (i & j & r0 & r1 & Hij & Hi & Hj & P).
  apply pair_overlaps_true in P as (K0 & K1 & Hov).
  apply (overlapping_not_disjoint r0 r1 Hov).
  apply (Hno i j n0 r0 n1 r1); auto. lia.
Qed.

Lemma main_bus_sized : sized (SoCBus.regions main_bus).
Proof.
  intros n x Hin _. simpl in Hin.
  destruct Hin as [E|[E|[]]]; inversion E; subst; simpl; eauto.
Qed.

(** Witness of [check_region_decides_no_overlap]: the table of the
    module's test. *)
Lemma check_region_decides_no_overlap_witness :
  sized (SoCBus.regions main_bus) /\
  (SoCBus.check_region (SoCBus.regions main_bus) = Ok None <->
   no_overlap (SoCBus.regions main_bus)).
Proof.
  split; [exact main_bus_sized|].
  exact (check_region_decides_no_overlap (SoCBus.regions main_bus) main_bus_sized).
Defined.

(** X2. The pair [check_region] reports is a pair of overlapping physical
    entries, the first at place [i], the second at a later place [j], and
    no pair that comes before [(i, j)] in the order of the two loops
    overlaps. *)
Theorem check_region_reports_first_pair (l : Dict.t SoCRegion.t) (n0 n1 : string) :
  SoCBus.check_region l = Ok (Some (n0, n1)) ->
  exists i j r0 r1,
    (i < j)%nat /\ nth_error l i = Some (n0, r0) /\ nth_error l j = Some (n1, r1) /\
    SoCRegion.kind r0 = SoCRegion.Physical /\ SoCRegion.kind r1 = SoCRegion.Physical /\
    overlapping r0 r1 /\
    forall i' j' na a nb b,
      (i' < j')%nat -> (i' < i \/ (i' = i /\ j' < j))%nat ->
      nth_error l i' = Some (na, a) -> nth_error l j' = Some (nb, b) ->
      ~ (SoCRegion.kind a = SoCRegion.Physical /\ SoCRegion.kind b = SoCRegion.Physical /\
         overlapping a b).
Proof.
  intros H. destruct (check_region_first _ _ _ H) as (i & j & r0 & r1 & Hij & Hi & Hj & P & F).
  apply pair_overlaps_true in P as (K0 & K1 & Hov).
  exists i, j, r0, r1. repeat split; auto.
  intros i' j' na a nb b Hlt Hlex Ha Hb.
  apply pair_overlaps_false_not_overlapping. eapply F; eauto.
Qed.

(** Witness of [check_region_reports_first_pair]: [a] collides with [b]
    and with [c], and [b] with [c]; the pair reported is [(a, b)]. *)
Lemma check_region_reports_first_pair_witness :
  SoCBus.check_region crowded_table = Ok (Some ("a"%string, "b"%string)) /\
  exists i j r0 r1,
    (i < j)%nat /\ nth_error crowded_table i = Some ("a"%string, r0) /\
    nth_error crowded_table j = Some ("b"%string, r1) /\
    SoCRegion.kind r0 = SoCRegion.Physical /\ SoCRegion.kind r1 = SoCRegion.Physical /\
    overlapping r0 r1 /\
    forall i' j' na a nb b,
      (i' < j')%nat -> (i' < i \/ (i' = i /\ j' < j))%nat ->
      nth_error crowded_table i' = Some (na, a) -> nth_error crowded_table j' = Some (nb, b) ->
      ~ (SoCRegion.kind a = SoCRegion.Physical /\ SoCRegion.kind b = SoCRegion.Physical /\
         overlapping a b).
Proof.
  split; [reflexivity|].
  exact (check_region_reports_first_pair crowded_table "a" "b" eq_refl).
Defined.

Lemma check_against_linker (r0 : SoCRegion.t) (rest : Dict.t SoCRegion.t) :
  SoCRegion.is_linker r0 = true -> SoCBus.check_against r0 rest = Ok None.
Proof.
  intros L. induction rest as [|[n r] rest IH]; simpl; [reflexivity|].
  unfold SoCBus.pair_overlaps. rewrite L. simpl. exact IH.
Qed.

Lemma check_against_filter (r0 : SoCRegion.t) (rest : Dict.t SoCRegion.t) :
  SoCBus.check_against r0 rest =
  SoCBus.check_against r0 (filter (fun p => negb (SoCRegion.is_linker (snd p))) rest).
Proof.
  induction rest as [|[n r] rest IH]; simpl; [reflexivity|].
  destruct (SoCRegion.is_linker r) eqn:L; simpl.
  - unfold SoCBus.pair_overlaps. rewrite L, orb_true_r. simpl. exact IH.
  - destruct (SoCBus.pair_overlaps r0 r) as [[|]|]; simpl; auto.
Qed.

(** X3. Linker regions take no part in the check: [check_region] gives the
    same answer, the same pair or the same exception, on the table
    without its linker entries. *)
Theorem check_region_skips_linker_regions (l : Dict.t SoCRegion.t) :
  SoCBus.check_region l =
  SoCBus.check_region (filter (fun p => negb (SoCRegion.is_linker (snd p))) l).
Proof.
  induction l as [|[n r] l IH]; simpl; [reflexivity|].
  destruct (SoCRegion.is_linker r) eqn:L; simpl.
  - rewrite check_against_linker by exact L. simpl. exact IH.
  - rewrite <- check_against_filter.
    destruct (SoCBus.check_against r l) as [[m|]|]; simpl; auto.
Qed.

(** ** The region search, continued *)

Lemma scan_found_origin (items : Dict.t SoCRegion.t) (size limit : Z) (cached : bool)
      (candidate : SoCRegion.t) :
  forall fuel origin,
    SoCBus.scan fuel items size cached limit origin = Ok (Some candidate) ->
    SoCRegion.origin candidate = Some origin \/
    exists n a oa sa,
      In (n, a) items /\ SoCRegion.origin a = Some oa /\ SoCRegion.size a = Some sa /\
      SoCRegion.origin candidate = Some (oa + sa).
Proof.
  induction fuel as [|fuel IH]; intros origin H; [discriminate|].
  simpl in H. destruct (origin + size <? limit); [|discriminate].
  destruct (SoCBus.first_conflict
              (SoCRegion.mk SoCRegion.Physical (Some origin) (Some size) cached) items)
    as [[e|]|e] eqn:F; simpl in H.
  - right. apply first_conflict_some in F as (n & a & Hin & _ & Ha).
    unfold py_add in Ha.
    destruct (SoCRegion.origin a) as [oa|] eqn:O; [|discriminate].
    destruct (SoCRegion.size a) as [sa|] eqn:Sz; [|discriminate].
    inversion Ha; subst e.
    destruct (IH _ H) as [E|R]; [|exact R].
    exists n, a, oa, sa. auto.
  - inversion H; subst. now left.
  - discriminate.
Qed.

Lemma alloc_region_cached_scan (sz : Z) (self : SoCBus.t) :
  existsb (fun p => negb (SoCRegion.cached (snd p))) (SoCBus.regions self) = false ->
  SoCBus.alloc_region (Some sz) true self =
  match SoCBus.scan (S (Dict.len (SoCBus.regions self))) (SoCBus.regions self) sz true
                    (0 + (2 ^ SoCBus.address_width self - 1)) 0 with
  | Ok (Some candidate) => Ok candidate
  | Ok None => Err OutOfSpaceError
  | Err e => Err e
  end.
Proof.
  intros Hu. unfold SoCBus.alloc_region. rewrite collect_uncached_spec, Hu.
  cbn [rbind negb SoCBus.search SoCRegion.origin SoCRegion.size].
  destruct (SoCBus.scan _ _ sz true _ 0) as [[c|]|]; reflexivity.
Qed.

Lemma alloc_region_needs_cached_table (size : option Z) (cached : bool) (self : SoCBus.t)
      (c : SoCRegion.t) :
  SoCBus.alloc_region size cached self = Ok c ->
  existsb (fun p => negb (SoCRegion.cached (snd p))) (SoCBus.regions self) = false.
Proof.
  unfold SoCBus.alloc_region. destruct size; [|discriminate].
  rewrite collect_uncached_spec.
  destruct (existsb _ (SoCBus.regions self)); [discriminate|reflexivity].
Qed.

(** X4. A region that [alloc_region] returns for a cached request has the
    requested size, lies in [0, 2^address_width - 1), is disjoint from
    every registered physical region, and starts at [0] or at the end of
    a registered region. *)
Theorem alloc_region_cached_result (size : option Z) (self : SoCBus.t) (c : SoCRegion.t) :
  SoCBus.alloc_region size true self = Ok c ->
  exists o sz,
    size = Some sz /\
    c = SoCRegion.mk SoCRegion.Physical (Some o) (Some sz) true /\
    0 <= o /\ o + sz < 2 ^ SoCBus.address_width self - 1 /\
    (forall n a, In (n, a) (SoCBus.regions self) ->
                 SoCRegion.kind a = SoCRegion.Physical -> disjoint a c) /\
    (o = 0 \/
     exists n a oa sa,
       In (n, a) (SoCBus.regions self) /\
       SoCRegion.origin a = Some oa /\ SoCRegion.size a = Some sa /\ o = oa + sa).
Proof.
  intros H. pose proof (alloc_region_needs_cached_table _ _ _ _ H) as Hu.
  destruct size as [sz|]; [|discriminate].
  rewrite (alloc_region_cached_scan sz self Hu) in H.
  destruct (SoCBus.scan _ _ sz true _ 0) as [[c'|]|] eqn:Sc; try discriminate.
  inversion H; subst c'. clear H.
  pose proof (scan_found_origin _ _ _ _ _ _ _ Sc) as Ho.
  apply scan_found in Sc as (o & -> & Hge & Hlt & Hc).
  exists o, sz. repeat split; auto; try lia.
  - intros n a Hin Ka. apply pair_overlaps_false; auto.
    eapply first_conflict_none; eauto.
  - simpl in Ho. destruct Ho as [E|(n & a & oa & sa & Hin & O & Sz & E)].
    + left. congruence.
    + right. exists n, a, oa, sa. repeat split; auto. congruence.
Qed.

(** Witness of [alloc_region_cached_result]: 1024 bytes on the bus of the
    module's test go to the end of [ram]. *)
Lemma alloc_region_cached_result_witness :
  SoCBus.alloc_region (Some 1024) true main_bus =
    Ok (SoCRegion.mk SoCRegion.Physical (Some 1792) (Some 1024) true) /\
  exists o sz,
    Some 1024 = Some sz /\
    SoCRegion.mk SoCRegion.Physical (Some 1792) (Some 1024) true =
      SoCRegion.mk SoCRegion.Physical (Some o) (Some sz) true /\
    0 <= o /\ o + sz < 2 ^ SoCBus.address_width main_bus - 1 /\
    (forall n a, In (n, a) (SoCBus.regions main_bus) ->
                 SoCRegion.kind a = SoCRegion.Physical ->
                 disjoint a (SoCRegion.mk SoCRegion.Physical (Some 1792) (Some 1024) true)) /\
    (o = 0 \/
     exists n a oa sa,
       In (n, a) (SoCBus.regions main_bus) /\
       SoCRegion.origin a = Some oa /\ SoCRegion.size a = Some sa /\ o = oa + sa).
Proof.
  split; [reflexivity|].
  exact (alloc_region_cached_result (Some 1024) main_bus _ eq_refl).
Defined.

(** X5. With no uncached region registered, a request for
    [2^address_width - 1] bytes or more fails for lack of space, whatever
    the table holds; on an empty table any smaller request is placed at
    [0]. *)
Theorem alloc_region_room (sz : Z) (cached : bool) (self : SoCBus.t) :
  existsb (fun p => negb (SoCRegion.cached (snd p))) (SoCBus.regions self) = false ->
  (2 ^ SoCBus.address_width self - 1 <= sz ->
   SoCBus.alloc_region (Some sz) cached self = Err OutOfSpaceError) /\
  (SoCBus.regions self = [] -> sz < 2 ^ SoCBus.address_width self - 1 ->
   SoCBus.alloc_region (Some sz) true self =
   Ok (SoCRegion.mk SoCRegion.Physical (Some 0) (Some sz) true)).
Proof.
  intros Hu. split.
  - intros Hbig. destruct cached.
    + rewrite (alloc_region_cached_scan sz self Hu). simpl.
      destruct (Z.ltb_spec sz (2 ^ SoCBus.address_width self - 1)); [lia|reflexivity].
    + unfold SoCBus.alloc_region. rewrite collect_uncached_spec, Hu. reflexivity.
  - intros He Hsmall. rewrite (alloc_region_cached_scan sz self Hu), He. simpl.
    destruct (Z.ltb_spec sz (2 ^ SoCBus.address_width self - 1)); [reflexivity|lia].
Qed.

(** Witness of [alloc_region_room]: on the bus of the module's test,
    [0xffffffff] bytes do not fit. *)
Lemma alloc_region_room_witness :
  SoCBus.alloc_region (Some 0xffffffff) true main_bus = Err OutOfSpaceError.
Proof.
  refine (proj1 (alloc_region_room 0xffffffff true main_bus eq_refl) _).
  simpl. lia.
Defined.

(** X6. Once the table holds an uncached region, every [alloc_region]
    call, cached or not, stops with the [NameError] of the pool loop, and
    so does every [add_region] of a region without origin, which leaves
    the bus as it was. *)
Theorem uncached_region_blocks_allocation (self : SoCBus.t) :
  existsb (fun p => negb (SoCRegion.cached (snd p))) (SoCBus.regions self) = true ->
  (forall sz cached,
      SoCBus.alloc_region (Some sz) cached self = Err (PyNameError "name")) /\
  (forall name r sz,
      SoCRegion.kind r = SoCRegion.Physical -> SoCRegion.origin r = None ->
      SoCRegion.size r = Some sz ->
      SoCBus.add_region name (VRegion r) self = Raise (PyNameError "name") self).
Proof.
  intros Hu.
  assert (A : forall sz cached,
             SoCBus.alloc_region (Some sz) cached self = Err (PyNameError "name")).
  { intros sz cached. unfold SoCBus.alloc_region. rewrite collect_uncached_spec, Hu.
    reflexivity. }
  split; [exact A|].
  intros name r sz K O Sz. unfold SoCBus.add_region. rewrite K, O, Sz.
  unfold bind, lift. rewrite A. reflexivity.
Qed.

(** Witness of [uncached_region_blocks_allocation]: a cached request on
    the bus with one uncached window. *)
Lemma uncached_region_blocks_allocation_witness :
  SoCBus.alloc_region (Some 0x100) true io_bus = Err (PyNameError "name") /\
  SoCBus.add_region "ram" (VRegion (SoCRegion.mk SoCRegion.Physical None (Some 512) true)) io_bus
  = Raise (PyNameError "name") io_bus.
Proof.
  destruct (uncached_region_blocks_allocation io_bus eq_refl) as [A B].
  split; [apply A | apply (B _ _ 512); reflexivity].
Defined.

(** ** Registering regions, masters and slaves *)

Lemma get_set_same {V : Type} (k : string) (v : V) (d : Dict.t V) :
  Dict.get k (Dict.set k v d) = Some v.
Proof.
  induction d as [|[k' v'] d IH]; simpl.
  - now rewrite String.eqb_refl.
  - destruct (String.eqb k k') eqn:E; simpl.
    + now rewrite String.eqb_refl.
    + now rewrite E.
Qed.

Lemma get_set_other {V : Type} (k k' : string) (v : V) (d : Dict.t V) :
  k' <> k -> Dict.get k' (Dict.set k v d) = Dict.get k' d.
Proof.
  intros Hne. induction d as [|[k0 v0] d IH]; simpl.
  - destruct (String.eqb_spec k' k); [contradiction|reflexivity].
  - destruct (String.eqb_spec k k0) as [->|]; simpl.
    + destruct (String.eqb_spec k' k0); [contradiction|reflexivity].
    + destruct (String.eqb k' k0); auto.
Qed.

Lemma mem_false_get {V : Type} (k : string) (d : Dict.t V) :
  Dict.mem k d = false <-> Dict.get k d = None.
Proof.
  pose proof (mem_get k d) as [H1 H2].
  destruct (Dict.mem k d) eqn:M.
  - destruct (H1 eq_refl) as [v G]. rewrite G. split; discriminate.
  - destruct (Dict.get k d) as [v|] eqn:G; [|tauto].
    assert (false = true) by (apply H2; eauto). discriminate.
Qed.

Lemma mem_false_not_in {V : Type} (k : string) (d : Dict.t V) :
  Dict.mem k d = false <-> ~ In k (Dict.keys d).
Proof.
  unfold Dict.mem. split.
  - intros H Hin. assert (existsb (String.eqb k) (Dict.keys d) = true).
    { apply existsb_exists. exists k. split; [exact Hin | apply String.eqb_refl]. }
    congruence.
  - intros H. destruct (existsb (String.eqb k) (Dict.keys d)) eqn:E; [|reflexivity].
    apply existsb_exists in E as (x & Hin & Ex). apply String.eqb_eq in Ex. subst. tauto.
Qed.

Lemma set_fresh {V : Type} (k : string) (v : V) (d : Dict.t V) :
  Dict.mem k d = false -> Dict.set k v d = d ++ [(k, v)].
Proof.
  unfold Dict.mem, Dict.keys. induction d as [|[k' v'] d IH]; simpl; [reflexivity|].
  destruct (String.eqb k k'); simpl; [discriminate|].
  intros H. now rewrite IH.
Qed.

(** What a call of [add_region] that returned normally has done. *)
Lemma add_region_returns (name : string) (region : value_arg) (self self' : SoCBus.t) :
  SoCBus.add_region name region self = Return tt self' ->
  exists r,
    region = VRegion r /\
    ((SoCRegion.kind r = SoCRegion.Linker /\ self' = self) \/
     (SoCRegion.kind r = SoCRegion.Physical /\ SoCRegion.origin r = None /\
      exists o sz,
        SoCRegion.size r = Some sz /\
        SoCBus.alloc_region (SoCRegion.size r) (SoCRegion.cached r) self =
          Ok (SoCRegion.mk SoCRegion.Physical (Some o) (Some sz) (SoCRegion.cached r)) /\
        self' = SoCBus.with_regions self
                  (Dict.set name
                     (SoCRegion.mk SoCRegion.Physical (Some o) (Some sz) (SoCRegion.cached r))
                     (SoCBus.regions self))) \/
     (SoCRegion.kind r = SoCRegion.Physical /\
      (exists o, SoCRegion.origin r = Some o) /\
      SoCBus.check_region (Dict.set name r (SoCBus.regions self)) = Ok None /\
      self' = SoCBus.with_regions self (Dict.set name r (SoCBus.regions self)))).
Proof.
  unfold SoCBus.add_region.
  destruct region as [z|r|]; try discriminate.
  intros H. exists r. split; [reflexivity|].
  destruct (SoCRegion.kind r) eqn:K.
  - destruct (SoCRegion.origin r) as [o|] eqn:O.
    + right; right. revert H. unfold bind, modify, lift, throw, ret; simpl.
      destruct (SoCBus.check_region _) as [[[n0 n1]|]|] eqn:C; try discriminate.
      intros H; inversion H; subst. repeat split; eauto.
    + right; left. revert H. unfold bind, modify, lift, throw, ret; simpl.
      destruct (SoCBus.alloc_region _ _ self) as [c|] eqn:A; try discriminate.
      intros H; inversion H; subst. repeat split; auto.
      destruct (alloc_region_found _ _ _ _ A) as (o & sz & Sz & -> & _).
      exists o, sz. auto.
  - left. unfold ret in H. inversion H; auto.
Qed.

(** X7. After [add_region] has returned normally for a physical region,
    the table binds the name to a region of the given size and
    cacheability (to the given region itself when it came with an
    origin), and every other name is bound as before. *)
Theorem add_region_binds_name (name : string) (r : SoCRegion.t) (self self' : SoCBus.t) :
  SoCBus.add_region name (VRegion r) self = Return tt self' ->
  SoCRegion.kind r = SoCRegion.Physical ->
  (exists r',
      Dict.get name (SoCBus.regions self') = Some r' /\
      SoCRegion.kind r' = SoCRegion.Physical /\
      SoCRegion.size r' = SoCRegion.size r /\
      SoCRegion.cached r' = SoCRegion.cached r /\
      (SoCRegion.origin r <> None -> r' = r)) /\
  (forall n, n <> name ->
             Dict.get n (SoCBus.regions self') = Dict.get n (SoCBus.regions self)) /\
  SoCBus.slaves self' = SoCBus.slaves self /\
  SoCBus.masters self' = SoCBus.masters self.
Proof.
  intros H K. apply add_region_returns in H as (r0 & E & H). inversion E; subst r0; clear E.
  destruct H as [[K' _]|[(_ & O & o & sz & Sz & _ & ->)|(_ & [o O] & _ & ->)]].
  - congruence.
  - simpl. split; [|split; [intros n Hn; apply get_set_other; exact Hn | auto]].
    eexists. split; [apply get_set_same|]. simpl. repeat split; auto. congruence.
  - simpl. split; [|split; [intros n Hn; apply get_set_other; exact Hn | auto]].
    exists r. split; [apply get_set_same|]. repeat split; auto.
Qed.

(** Witness of [add_region_binds_name]: [boot] added beside [rom] and
    [ram]. *)
Lemma add_region_binds_name_witness :
  exists self',
    SoCBus.add_region "boot"
      (VRegion (SoCRegion.mk SoCRegion.Physical (Some 0x4000) (Some 0x100) true)) main_bus
    = Return tt self' /\
    Dict.get "boot" (SoCBus.regions self') =
      Some (SoCRegion.mk SoCRegion.Physical (Some 0x4000) (Some 0x100) true) /\
    Dict.get "rom" (SoCBus.regions self') = Dict.get "rom" (SoCBus.regions main_bus).
Proof.
  pose (r := SoCRegion.mk SoCRegion.Physical (Some 0x4000) (Some 0x100) true).
  pose (self' := SoCBus.with_regions main_bus (Dict.set "boot" r (SoCBus.regions main_bus))).
  destruct (add_region_binds_name "boot" r main_bus self' eq_refl eq_refl)
    as ((r' & G & _ & _ & _ & E) & Hother & _).
  exists self'. split; [reflexivity|]. split.
  - rewrite G. f_equal. apply E. discriminate.
  - apply Hother. discriminate.
Defined.

(** What a call of [add_slave] that returned normally has done. *)
Lemma add_slave_returns (name : option string) (slave : handle) (region : option value_arg)
      (self self' : SoCBus.t) :
  SoCBus.add_slave name slave region self = Return tt self' ->
  exists nm self1,
    ((exists rg, region = Some rg /\ SoCBus.add_region nm rg self = Return tt self1) \/
     (region = None /\ self1 = self /\ Dict.mem nm (SoCBus.regions self) = true)) /\
    Dict.mem nm (SoCBus.slaves self1) = false /\
    self' = SoCBus.with_slaves self1 (Dict.set nm slave (SoCBus.slaves self1)).
Proof.
  unfold SoCBus.add_slave.
  set (nm := match name with Some n => n | None => _ end).
  intros H. exists nm.
  assert (Hcont : forall s,
             bind (gets (fun self => Dict.mem nm (SoCBus.slaves self)))
                  (fun in_slaves =>
                     if in_slaves then throw (DuplicateNameError nm)
                     else modify (fun self =>
                            SoCBus.with_slaves self (Dict.set nm slave (SoCBus.slaves self))))
                  s = Return tt self' ->
             Dict.mem nm (SoCBus.slaves s) = false /\
             self' = SoCBus.with_slaves s (Dict.set nm slave (SoCBus.slaves s))).
  { intros s. unfold bind, gets, throw, modify.
    destruct (Dict.mem nm (SoCBus.slaves s)); [discriminate|].
    intros E; inversion E; auto. }
  destruct region as [rg|].
  - assert (Hb : bind (SoCBus.add_region nm rg)
                   (fun _ => bind (gets (fun self => Dict.mem nm (SoCBus.slaves self)))
                      (fun in_slaves =>
                         if in_slaves then throw (DuplicateNameError nm)
                         else modify (fun self =>
                                SoCBus.with_slaves self
                                  (Dict.set nm slave (SoCBus.slaves self))))) self
                 = Return tt self') by (destruct name; exact H).
    unfold bind at 1 in Hb.
    destruct (SoCBus.add_region nm rg self) as [[] s1|] eqn:A; [|discriminate].
    exists s1. destruct (Hcont s1 Hb). repeat split; eauto.
  - destruct name as [n|]; [|discriminate].
    unfold bind at 1 in H.
    destruct (Dict.get nm (SoCBus.regions self)) as [x|] eqn:G; [|discriminate].
    exists self. destruct (Hcont self H). repeat split; auto.
    right. repeat split; auto. apply mem_get. eauto.
Qed.

Lemma add_master_returns (name : option string) (master : handle) (self self' : SoCBus.t) :
  SoCBus.add_master name master self = Return tt self' ->
  exists nm,
    Dict.mem nm (SoCBus.masters self) = false /\
    self' = SoCBus.with_masters self (Dict.set nm master (SoCBus.masters self)).
Proof.
  unfold SoCBus.add_master.
  set (nm := match name with Some n => n | None => _ end).
  destruct (Dict.mem nm (SoCBus.masters self)) eqn:M; [discriminate|].
  intros H; inversion H. exists nm. auto.
Qed.

Lemma add_region_well_formed (name : string) (region : value_arg) (self self' : SoCBus.t) :
  bus_well_formed self ->
  SoCBus.add_region name region self = Return tt self' ->
  bus_well_formed self'.
Proof.
  intros (Hs & Hd & Ha & Hr) H.
  apply add_region_returns in H as (r & _ & H).
  destruct H as [[_ ->]|[(_ & _ & o & sz & _ & _ & ->)|(K & [o O] & _ & ->)]].
  - split; [exact Hs|]. split; [exact Hd|]. split; [exact Ha|]. exact Hr.
  - split; [exact Hs|]. split; [exact Hd|]. split; [exact Ha|]. simpl.
    intros n r0 H. apply in_set_inv in H as [E|H]; [|apply (Hr n r0 H)].
    inversion E; subst; simpl; eauto.
  - split; [exact Hs|]. split; [exact Hd|]. split; [exact Ha|]. simpl.
    intros n r0 H. apply in_set_inv in H as [E|H]; [|apply (Hr n r0 H)].
    inversion E; subst; simpl; eauto.
Qed.

(** X8. A bus that its constructor returned keeps, through every call
    that returns normally, the parameters the constructor accepted
    ([wishbone], 32 or 64 data bits, 32 address bits), and its table only
    ever holds physical regions with their origin set: linker regions and
    regions without origin are never stored. *)
Theorem completed_bus_well_formed (self : SoCBus.t) :
  completed self ->
  SoCBus.standard self = "wishbone"%string /\
  (SoCBus.data_width self = 32 \/ SoCBus.data_width self = 64) /\
  SoCBus.address_width self = 32 /\
  forall n r, In (n, r) (SoCBus.regions self) ->
              SoCRegion.kind r = SoCRegion.Physical /\ exists o, SoCRegion.origin r = Some o.
Proof.
  intros H. change (bus_well_formed self).
  induction H as [standard dw aw timeout reserved self H|self c self' _ IH H].
  - revert H. unfold SoCBus.__init__, SoCBus.supported_standard,
      SoCBus.supported_data_width, SoCBus.supported_address_width. simpl existsb.
    destruct (String.eqb_spec standard "wishbone"); [|discriminate].
    destruct (Z.eqb_spec dw 32); [|destruct (Z.eqb_spec dw 64); [|discriminate]];
      (destruct (Z.eqb_spec aw 32); [|discriminate]); simpl;
      match goal with |- context [for_each ?l ?b ?s] =>
        destruct (for_each l b s) as [[] s'|] eqn:F end; try discriminate;
      intros E; inversion E; subst s'; revert F;
      apply (for_each_invariant bus_well_formed);
      try (intros [name region] s s1 Hs; apply add_region_well_formed; exact Hs);
      (split; [assumption|]; split; [auto|]; split; [assumption|]; intros ? ? []).
  - destruct c as [name region|size cached|name slave region|name master]; simpl in H.
    + eapply add_region_well_formed; eauto.
    + destruct (SoCBus.alloc_region size cached self); [|discriminate].
      inversion H; subst; exact IH.
    + apply add_slave_returns in H as (nm & s1 & Hreg & _ & ->).
      assert (bus_well_formed s1) as (A & B & C & D).
      { destruct Hreg as [(rg & _ & Hadd)|(_ & -> & _)]; [|exact IH].
        eapply add_region_well_formed; eauto. }
      split; [exact A|]. split; [exact B|]. split; [exact C|]. exact D.
    + apply add_master_returns in H as (nm & _ & ->).
      destruct IH as (A & B & C & D).
      split; [exact A|]. split; [exact B|]. split; [exact C|]. exact D.
Qed.

(** Witness of [completed_bus_well_formed]: the bus of the module's test. *)
Lemma completed_bus_well_formed_witness :
  completed main_bus /\
  SoCBus.address_width main_bus = 32 /\
  forall n r, In (n, r) (SoCBus.regions main_bus) ->
              SoCRegion.kind r = SoCRegion.Physical /\ exists o, SoCRegion.origin r = Some o.
Proof.
  assert (H : completed main_bus).
  { apply (completed_init "wishbone" 32 32 1000000 main_reserved). reflexivity. }
  destruct (completed_bus_well_formed main_bus H) as (_ & _ & A & R).
  split; [exact H|]. split; [exact A | exact R].
Defined.

(** ** Names made up for unnamed masters *)

Lemma to_uint_not_nil (n : nat) : Nat.to_uint n <> Nil.
Proof.
  pose proof (DecimalNat.Unsigned.to_of (Nat.to_uint n)) as H.
  rewrite DecimalNat.Unsigned.of_to in H. rewrite H.
  unfold unorm. destruct (nzhead (Nat.to_uint n)); discriminate.
Qed.

Lemma decimal_inj (a b : nat) : decimal a = decimal b -> a = b.
Proof.
  unfold decimal. intros H.
  apply (f_equal NilZero.uint_of_string) in H.
  rewrite !NilZero.usu in H by apply to_uint_not_nil.
  inversion H as [E]. now apply DecimalNat.Unsigned.to_uint_inj.
Qed.

Lemma append_inj_l (p a b : string) : (p ++ a = p ++ b)%string -> a = b.
Proof.
  induction p as [|c p IH]; simpl; intros H; [exact H|].
  inversion H. auto.
Qed.

Lemma auto_names_S (prefix : string) (k : nat) :
  auto_names prefix (S k) = auto_names prefix k ++ [(prefix ++ decimal k)%string].
Proof.
  unfold auto_names. rewrite seq_S, map_app. reflexivity.
Qed.

Lemma auto_names_length (prefix : string) (k : nat) :
  List.length (auto_names prefix k) = k.
Proof. unfold auto_names. now rewrite length_map, length_seq. Qed.

Lemma auto_name_fresh (prefix : string) (k : nat) :
  ~ In (prefix ++ decimal k)%string (auto_names prefix k).
Proof.
  unfold auto_names. intros H. apply in_map_iff in H as (i & E & Hi).
  apply append_inj_l, decimal_inj in E. apply in_seq in Hi. lia.
Qed.

Lemma keys_combine {V : Type} (names : list string) (vs : list V) :
  List.length names = List.length vs -> Dict.keys (combine names vs) = names.
Proof.
  unfold Dict.keys. revert vs. induction names as [|n names IH]; intros [|v vs] H;
    simpl in *; try discriminate; auto.
  f_equal. apply IH. lia.
Qed.

Lemma combine_append {A B : Type} (a a' : list A) (b b' : list B) :
  List.length a = List.length b ->
  combine (a ++ a') (b ++ b') = combine a b ++ combine a' b'.
Proof.
  revert b. induction a as [|x a IH]; intros [|y b] H; simpl in *; try discriminate; auto.
  f_equal. apply IH. lia.
Qed.

Lemma add_masters_auto (ms : list handle) :
  forall (self : SoCBus.t) (pre : list handle),
    SoCBus.masters self = combine (auto_names "master" (List.length pre)) pre ->
    for_each ms (SoCBus.add_master None) self =
    Return tt (SoCBus.with_masters self
                 (combine (auto_names "master" (List.length (pre ++ ms))) (pre ++ ms))).
Proof.
  induction ms as [|m ms IH]; intros self pre Hm.
  - simpl. unfold ret. rewrite app_nil_r, <- Hm. destruct self; reflexivity.
  - cbn [for_each]. unfold bind.
    assert (Hlen : Dict.len (SoCBus.masters self) = List.length pre).
    { unfold Dict.len. rewrite Hm, length_combine, auto_names_length. lia. }
    assert (Hfresh : Dict.mem ("master" ++ decimal (List.length pre))
                              (SoCBus.masters self) = false).
    { apply mem_false_not_in. rewrite Hm, keys_combine by apply auto_names_length.
      apply auto_name_fresh. }
    unfold SoCBus.add_master at 1. rewrite Hlen, Hfresh.
    rewrite (set_fresh _ _ _ Hfresh).
    rewrite (IH _ (pre ++ [m])).
    + rewrite <- app_assoc. simpl. destruct self; reflexivity.
    + simpl. rewrite Hm, length_app. simpl.
      replace (List.length pre + 1)%nat with (S (List.length pre)) by lia.
      rewrite auto_names_S, combine_append by (rewrite auto_names_length; reflexivity).
      reflexivity.
Qed.

(** X9. On a bus without masters, adding masters without a name never
    fails: the [k]-th call registers its master under [master<k>], so the
    registry ends as [master0], [master1], ... in the order of the calls. *)
Theorem add_master_auto_names (ms : list handle) (self : SoCBus.t) :
  SoCBus.masters self = [] ->
  for_each ms (SoCBus.add_master None) self =
  Return tt (SoCBus.with_masters self (combine (auto_names "master" (List.length ms)) ms)).
Proof.
  intros H. apply (add_masters_auto ms self []). exact H.
Qed.

(** Witness of [add_master_auto_names]: three masters on the bus of the
    module's test. *)
Lemma add_master_auto_names_witness :
  for_each [Some 7%nat; None; Some 9%nat] (SoCBus.add_master None) main_bus =
  Return tt (SoCBus.with_masters main_bus
               [("master0"%string, Some 7%nat); ("master1"%string, None);
                ("master2"%string, Some 9%nat)]).
Proof.
  exact (add_master_auto_names [Some 7%nat; None; Some 9%nat] main_bus eq_refl).
Defined.

(** ** The decoder, continued *)

Lemma decoder_cases (r : SoCRegion.t) (o s : Z) :
  SoCRegion.origin r = Some o -> SoCRegion.size r = Some s -> 0 <= s ->
  SoCRegion.decoder r =
  if window_origin o mod 2 ^ window_exponent s =? 0
  then Ok (fun a =>
             let? k := log2_int (Z.shiftr (2 ^ window_exponent s) 2) true in
             let? k' := log2_int (Z.shiftr (2 ^ window_exponent s) 2) true in
             Ok (slice a k (-1) =? Z.shiftr (Z.shiftr (window_origin o) 2) k'))
  else Err AlignmentError.
Proof.
  intros O Sz Hs. unfold SoCRegion.decoder, window_origin, window_exponent.
  rewrite O, Sz, (log2_int_round_up s Hs). cbn [rbind].
  assert (Hal : Z.land (Z.land o (Z.lnot 0x80000000)) (2 ^ Z.log2_up s - 1) =
                Z.land o (Z.lnot 0x80000000) mod 2 ^ Z.log2_up s).
  { change (2 ^ Z.log2_up s - 1) with (Z.pred (2 ^ Z.log2_up s)). rewrite <- Z.ones_equiv.
    apply Z.land_ones. apply Z.log2_up_nonneg. }
  rewrite Hal. destruct (_ mod _ =? 0); reflexivity.
Qed.

Lemma decoder_accepts (r : SoCRegion.t) (o s : Z) (p : Signal -> result bool) (a : Signal) :
  SoCRegion.origin r = Some o -> SoCRegion.size r = Some s -> 0 <= s ->
  SoCRegion.decoder r = Ok p ->
  Z.max (window_exponent s - 2) 0 < nbits a - 1 ->
  window_origin o mod 2 ^ window_exponent s = 0 /\
  (p a = Ok true <->
   Z.shiftr (window_origin o) 2 <= value a mod 2 ^ (nbits a - 1)
   < Z.shiftr (window_origin o) 2 + 2 ^ Z.max (window_exponent s - 2) 0).
Proof.
  intros O Sz Hs Hd Ha. rewrite (decoder_cases r o s O Sz Hs) in Hd.
  assert (Hk : 0 <= window_exponent s) by apply Z.log2_up_nonneg.
  destruct (Z.eqb_spec (window_origin o mod 2 ^ window_exponent s) 0) as [He|]; [|discriminate].
  split; [exact He|]. inversion Hd; subst p. cbv beta.
  rewrite (log2_int_words _ Hk). cbn [rbind].
  rewrite slice_to_top by lia.
  rewrite (Z.shiftr_div_pow2 (Z.shiftr (window_origin o) 2)) by lia.
  split.
  - intros E. inversion E as [E']. apply Z.eqb_eq in E'.
    apply div_eq_window in E'; auto; [lia | apply aligned_words; auto].
  - intros Hw. f_equal. apply Z.eqb_eq.
    apply div_eq_window; auto; [lia | apply aligned_words; auto].
Qed.

(** X10. The decoder does not look at bit 31 of the origin: two regions
    of the same size whose origins differ at most in that bit get the same
    decoder, the same predicate or the same exception. *)
Theorem decoder_ignores_bit_31 (r1 r2 : SoCRegion.t) (o1 o2 : Z) :
  SoCRegion.origin r1 = Some o1 ->
  SoCRegion.origin r2 = Some o2 ->
  SoCRegion.size r1 = SoCRegion.size r2 ->
  (forall n, 0 <= n -> n <> 31 -> Z.testbit o1 n = Z.testbit o2 n) ->
  SoCRegion.decoder r1 = SoCRegion.decoder r2.
Proof.
  intros O1 O2 Sz Hbits.
  assert (E : Z.land o1 (Z.lnot 0x80000000) = Z.land o2 (Z.lnot 0x80000000)).
  { apply Z.bits_inj'. intros n Hn. rewrite !clear_top_bit by exact Hn.
    destruct (Z.eqb_spec n 31); [reflexivity|]. apply Hbits; auto. }
  unfold SoCRegion.decoder. rewrite O1, O2, Sz, E. reflexivity.
Qed.

(** Witness of [decoder_ignores_bit_31]: the same window at [0x10000000]
    and at [0x90000000]. *)
Lemma decoder_ignores_bit_31_witness :
  SoCRegion.decoder (SoCRegion.mk SoCRegion.Physical (Some 0x10000000) (Some 0x1000) true) =
  SoCRegion.decoder (SoCRegion.mk SoCRegion.Physical (Some 0x90000000) (Some 0x1000) false).
Proof.
  apply (decoder_ignores_bit_31 _ _ 0x10000000 0x90000000);
    [reflexivity | reflexivity | reflexivity |].
  intros n Hn Hne.
  assert (E : 0x90000000 = Z.lor 0x10000000 (2 ^ 31)) by reflexivity.
  rewrite E, Z.lor_spec, Z.pow2_bits_eqb by lia.
  destruct (Z.eqb_spec 31 n); [congruence|]. now rewrite orb_false_r.
Defined.

(** X11. Two regions of at least four bytes whose windows, rounded and
    with bit 31 cleared as the decoder takes them, do not meet are told
    apart: no address is accepted by both predicates. *)
Theorem decoders_exclusive (r0 r1 : SoCRegion.t) (o0 s0 o1 s1 : Z)
        (p0 p1 : Signal -> result bool) (a : Signal) :
  SoCRegion.origin r0 = Some o0 -> SoCRegion.size r0 = Some s0 ->
  SoCRegion.origin r1 = Some o1 -> SoCRegion.size r1 = Some s1 ->
  4 <= s0 -> 4 <= s1 ->
  SoCRegion.decoder r0 = Ok p0 -> SoCRegion.decoder r1 = Ok p1 ->
  (window_origin o0 + 2 ^ window_exponent s0 <= window_origin o1 \/
   window_origin o1 + 2 ^ window_exponent s1 <= window_origin o0) ->
  window_exponent s0 - 2 < nbits a - 1 ->
  window_exponent s1 - 2 < nbits a - 1 ->
  ~ (p0 a = Ok true /\ p1 a = Ok true).
Proof.
  intros O0 S0 O1 S1 H0 H1 D0 D1 Hdis Ha0 Ha1 [A0 A1].
  assert (K : forall s, 4 <= s -> 2 <= window_exponent s).
  { intros s Hs. unfold window_exponent.
    change 2 with (Z.log2_up 4). apply Z.log2_up_le_mono. exact Hs. }
  pose proof (K s0 H0) as K0. pose proof (K s1 H1) as K1.
  destruct (decoder_accepts r0 o0 s0 p0 a O0 S0 ltac:(lia) D0 ltac:(lia)) as [Al0 W0].
  destruct (decoder_accepts r1 o1 s1 p1 a O1 S1 ltac:(lia) D1 ltac:(lia)) as [Al1 W1].
  apply W0 in A0. apply W1 in A1.
  rewrite Z.max_l in A0, A1 by lia.
  assert (W : forall o k, 2 <= k -> o mod 2 ^ k = 0 ->
                          o = 4 * Z.shiftr o 2 /\ 2 ^ k = 4 * 2 ^ (k - 2)).
  { intros o k Hk Hal.
    assert (E : 2 ^ k = 4 * 2 ^ (k - 2)).
    { replace k with (2 + (k - 2)) at 1 by lia. rewrite Z.pow_add_r by lia. reflexivity. }
    split; [|exact E].
    rewrite Z.shiftr_div_pow2 by lia. change (2 ^ 2) with 4.
    apply Z.mod_divide in Hal; [|apply Z.pow_nonzero; lia].
    destruct Hal as [q Hq]. rewrite E in Hq.
    pose proof (Z.div_mod o 4 ltac:(lia)) as Hdm.
    assert (o mod 4 = 0).
    { rewrite Hq. replace (q * (4 * 2 ^ (k - 2))) with (q * 2 ^ (k - 2) * 4) by ring.
      apply Z.mod_mul. lia. }
    lia. }
  destruct (W _ _ K0 Al0) as [E0 P0]. destruct (W _ _ K1 Al1) as [E1 P1].
  lia.
Qed.

(** Witness of [decoders_exclusive]: two neighbouring windows of [0x1000]
    bytes and the first word of the second. *)
Lemma decoders_exclusive_witness :
  exists p0 p1,
    SoCRegion.decoder (SoCRegion.mk SoCRegion.Physical (Some 0x10000000) (Some 0x1000) true)
    = Ok p0 /\
    SoCRegion.decoder (SoCRegion.mk SoCRegion.Physical (Some 0x10001000) (Some 0x1000) true)
    = Ok p1 /\
    ~ (p0 (mkSignal 30 0x4000400) = Ok true /\ p1 (mkSignal 30 0x4000400) = Ok true).
Proof.
  pose (r0 := SoCRegion.mk SoCRegion.Physical (Some 0x10000000) (Some 0x1000) true).
  pose (r1 := SoCRegion.mk SoCRegion.Physical (Some 0x10001000) (Some 0x1000) true).
  fold r0 r1.
  destruct (SoCRegion.decoder r0) as [p0|e0] eqn:D0;
    [|exfalso; vm_compute in D0; discriminate D0].
  destruct (SoCRegion.decoder r1) as [p1|e1] eqn:D1;
    [|exfalso; vm_compute in D1; discriminate D1].
  exists p0, p1. split; [reflexivity|]. split; [reflexivity|].
  apply (decoders_exclusive r0 r1 0x10000000 0x1000 0x10001000 0x1000 p0 p1
           (mkSignal 30 0x4000400) eq_refl eq_refl eq_refl eq_refl);
    [lia | lia | exact D0 | exact D1 | left; vm_compute; discriminate
    | vm_compute; reflexivity | vm_compute; reflexivity].
Defined.

(** ** Finalizing *)

Lemma bus_slaves_missing (regions : Dict.t SoCRegion.t) (items : Dict.t handle) (name : string) :
  In name (Dict.keys items) ->
  Dict.get name regions = None ->
  exists e, SoC.bus_slaves regions items = Err e.
Proof.
  unfold Dict.keys. induction items as [|[n s] items IH]; simpl; intros Hin G; [tauto|].
  destruct (Dict.get n regions) as [r|] eqn:Gn; [|eauto].
  destruct (SoCRegion.decoder r) as [d|e]; simpl; [|eauto].
  destruct Hin as [->|Hin]; [congruence|].
  destruct (IH Hin G) as [e E]. rewrite E. simpl. eauto.
Qed.

Lemma bus_slaves_defined (regions : Dict.t SoCRegion.t) (items : Dict.t handle) :
  (forall n s, In (n, s) items ->
               exists r p, Dict.get n regions = Some r /\ SoCRegion.decoder r = Ok p) ->
  exists l, SoC.bus_slaves regions items = Ok l /\ map snd l = Dict.values items.
Proof.
  unfold Dict.values. induction items as [|[n s] items IH]; simpl; intros H; [eauto|].
  destruct (H n s (or_introl eq_refl)) as (r & p & G & D). rewrite G, D. simpl.
  destruct (IH (fun n' s' Hin => H n' s' (or_intror Hin))) as (l & E & M).
  rewrite E. simpl. eexists. split; [reflexivity|]. simpl. now rewrite M.
Qed.

Lemma bus_slaves_inv (regions : Dict.t SoCRegion.t) (items : Dict.t handle)
      (l : list ((Signal -> result bool) * handle)) :
  SoC.bus_slaves regions items = Ok l ->
  map snd l = Dict.values items /\
  forall n s, In (n, s) items ->
              exists r p, Dict.get n regions = Some r /\ SoCRegion.decoder r = Ok p.
Proof.
  unfold Dict.values. revert l. induction items as [|[n s] items IH]; simpl; intros l H.
  - inversion H. split; [reflexivity|]. intros ? ? [].
  - destruct (Dict.get n regions) as [r|] eqn:G; [|discriminate].
    destruct (SoCRegion.decoder r) as [d|] eqn:D; simpl in H; [|discriminate].
    destruct (SoC.bus_slaves regions items) as [l'|] eqn:E; simpl in H; [|discriminate].
    inversion H; subst l. destruct (IH l' eq_refl) as [M I]. split.
    + simpl. now rewrite M.
    + intros n' s' [Eq|Hin]; [inversion Eq; subst; eauto | eauto].
Qed.

Lemma decoder_defined (r : SoCRegion.t) (o s : Z) :
  SoCRegion.origin r = Some o -> SoCRegion.size r = Some s -> 0 <= s ->
  window_origin o mod 2 ^ window_exponent s = 0 ->
  exists p, SoCRegion.decoder r = Ok p.
Proof.
  intros O Sz Hs Hal. rewrite (decoder_cases r o s O Sz Hs), Hal. simpl. eauto.
Qed.

Lemma decoder_ok_inv (r : SoCRegion.t) (p : Signal -> result bool) :
  SoCRegion.decoder r = Ok p ->
  exists o s,
    SoCRegion.origin r = Some o /\ SoCRegion.size r = Some s /\
    (0 <= s -> window_origin o mod 2 ^ window_exponent s = 0).
Proof.
  intros D.
  destruct (SoCRegion.origin r) as [o|] eqn:O;
    [|unfold SoCRegion.decoder in D; rewrite O in D; discriminate].
  destruct (SoCRegion.size r) as [s|] eqn:Sz;
    [|unfold SoCRegion.decoder in D; rewrite O, Sz in D; discriminate].
  exists o, s. repeat split; auto. intros Hs.
  rewrite (decoder_cases r o s O Sz Hs) in D.
  destruct (Z.eqb_spec (window_origin o mod 2 ^ window_exponent s) 0); [assumption|discriminate].
Qed.

(** X12. A slave added with a linker region under a name the bus does
    not know is registered, but no region is: the table stays as it was,
    and finalizing a system with that bus raises. *)
Theorem linker_slave_breaks_finalize
        (name : string) (slave : handle) (r : SoCRegion.t) (self : SoCBus.t) :
  SoCRegion.kind r = SoCRegion.Linker ->
  Dict.mem name (SoCBus.slaves self) = false ->
  Dict.get name (SoCBus.regions self) = None ->
  exists self',
    SoCBus.add_slave (Some name) slave (Some (VRegion r)) self = Return tt self' /\
    SoCBus.regions self' = SoCBus.regions self /\
    Dict.get name (SoCBus.slaves self') = Some slave /\
    forall csr irq, exists e, SoC.do_finalize (SoC.mk self' csr irq) = Err e.
Proof.
  intros K M G.
  exists (SoCBus.with_slaves self (Dict.set name slave (SoCBus.slaves self))).
  split; [|split; [reflexivity|split; [apply get_set_same|]]].
  - unfold SoCBus.add_slave, SoCBus.add_region. rewrite K.
    unfold bind, ret, gets, throw, modify. rewrite M. reflexivity.
  - intros csr irq. unfold SoC.do_finalize. simpl.
    destruct (bus_slaves_missing (SoCBus.regions self)
                (Dict.set name slave (SoCBus.slaves self)) name) as [e E]; [|exact G|].
    + unfold Dict.keys. apply in_map_iff. exists (name, slave). split; [reflexivity|].
      apply set_in_new.
    + rewrite E. simpl. eauto.
Qed.

(** Witness of [linker_slave_breaks_finalize]: a linker region for a new
    slave [sram] on the bus of the module's test. *)
Lemma linker_slave_breaks_finalize_witness :
  exists self',
    SoCBus.add_slave (Some "sram"%string) None
      (Some (VRegion (SoCRegion.mk SoCRegion.Linker (Some 0x20000000) (Some 0x1000) true)))
      main_bus = Return tt self' /\
    SoCBus.regions self' = SoCBus.regions main_bus /\
    Dict.get "sram" (SoCBus.slaves self') = Some None /\
    forall csr irq, exists e, SoC.do_finalize (SoC.mk self' csr irq) = Err e.
Proof.
  exact (linker_slave_breaks_finalize "sram" None
           (SoCRegion.mk SoCRegion.Linker (Some 0x20000000) (Some 0x1000) true)
           main_bus eq_refl eq_refl eq_refl).
Defined.

Lemma bus_slaves_pairs (regions : Dict.t SoCRegion.t) (items : Dict.t handle)
      (l : list ((Signal -> result bool) * handle)) :
  SoC.bus_slaves regions items = Ok l -> Forall2 (decodes regions) items l.
Proof.
  revert l. induction items as [|[n s] items IH]; simpl; intros l H.
  - inversion H. constructor.
  - destruct (Dict.get n regions) as [r|] eqn:G; [|discriminate].
    destruct (SoCRegion.decoder r) as [d|] eqn:D; simpl in H; [|discriminate].
    destruct (SoC.bus_slaves regions items) as [l'|] eqn:E; simpl in H; [|discriminate].
    inversion H; subst l. constructor; [|apply IH; reflexivity].
    split; [reflexivity|]. exists r. auto.
Qed.

(** X13. When every slave of the bus is bound to a region with origin and
    a size that is not negative, whose origin with bit 31 cleared is a
    multiple of the rounded size, no decoder raises: [do_finalize] gets
    as far as its [if] with one pair per entry of the slave registry, in
    the order of registration, each made of the entry's slave and of the
    decoder of the region bound to the entry's name.  It skips the call
    of [InterconnectShared] exactly when the bus has no master or no
    slave, and otherwise makes it with the masters' handles, those
    pairs, [register = True] and the timeout of the bus. *)
Theorem do_finalize_succeeds (self : SoC.t) :
  (forall n s,
      In (n, s) (SoCBus.slaves (SoC.bus self)) ->
      exists r o sz,
        Dict.get n (SoCBus.regions (SoC.bus self)) = Some r /\
        SoCRegion.origin r = Some o /\ SoCRegion.size r = Some sz /\ 0 <= sz /\
        window_origin o mod 2 ^ window_exponent sz = 0) ->
  exists pairs,
    SoC.bus_slaves (SoCBus.regions (SoC.bus self)) (SoCBus.slaves (SoC.bus self)) = Ok pairs /\
    Forall2 (decodes (SoCBus.regions (SoC.bus self))) (SoCBus.slaves (SoC.bus self)) pairs /\
    SoC.do_finalize self =
    Ok (match SoCBus.masters (SoC.bus self), SoCBus.slaves (SoC.bus self) with
        | [], _ | _, [] => None
        | _ :: _, _ :: _ =>
            Some (SoC.mkInterconnect (Dict.values (SoCBus.masters (SoC.bus self))) pairs
                                     true (SoCBus.timeout (SoC.bus self)))
        end).
Proof.
  intros H.
  destruct (bus_slaves_defined (SoCBus.regions (SoC.bus self)) (SoCBus.slaves (SoC.bus self)))
    as (l & E & M).
  { intros n s Hin. destruct (H n s Hin) as (r & o & sz & G & O & Sz & Hs & Hal).
    destruct (decoder_defined r o sz O Sz Hs Hal) as [p D]. eauto. }
  exists l. split; [exact E|]. split; [apply bus_slaves_pairs; exact E|].
  unfold SoC.do_finalize. rewrite E. cbn [rbind].
  assert (Ll : List.length l = List.length (SoCBus.slaves (SoC.bus self))).
  { rewrite <- (length_map snd l), M. unfold Dict.values. apply length_map. }
  rewrite Ll. unfold Dict.values at 1. rewrite length_map.
  destruct (SoCBus.masters (SoC.bus self)) as [|m ms]; simpl.
  - destruct (SoCBus.slaves (SoC.bus self)); reflexivity.
  - destruct (SoCBus.slaves (SoC.bus self)) as [|s ss]; reflexivity.
Qed.

Lemma rom_soc_decodable :
  forall n s,
    In (n, s) (SoCBus.slaves (SoC.bus rom_soc)) ->
    exists r o sz,
      Dict.get n (SoCBus.regions (SoC.bus rom_soc)) = Some r /\
      SoCRegion.origin r = Some o /\ SoCRegion.size r = Some sz /\ 0 <= sz /\
      window_origin o mod 2 ^ window_exponent sz = 0.
Proof.
  intros n s [E|[]]. inversion E; subst.
  exists (SoCRegion.mk SoCRegion.Physical (Some 0x10000000) (Some 0x1000) true),
    0x10000000, 0x1000.
  repeat split; try reflexivity. lia.
Qed.

(** Witness of [do_finalize_succeeds]: one master, one slave on an
    aligned window; the pair made for [rom] holds the decoder of the
    region [rom], and the call is made with it. *)
Lemma do_finalize_succeeds_witness :
  exists d,
    SoCRegion.decoder (SoCRegion.mk SoCRegion.Physical (Some 0x10000000) (Some 0x1000) true)
    = Ok d /\
    SoC.do_finalize rom_soc =
    Ok (Some (SoC.mkInterconnect [None] [(d, Some 1%nat)] true 1000000)).
Proof.
  destruct (do_finalize_succeeds rom_soc rom_soc_decodable) as (pairs & _ & F2 & Fin).
  simpl in F2.
  inversion F2 as [|item pair items l' Hd Hrest E1 E2]; subst.
  inversion Hrest; subst.
  destruct pair as [d s]. destruct Hd as [Hs (r & G & D)].
  simpl in Hs, G, D. inversion G; subst r. subst s.
  exists d. split; [exact D|]. exact Fin.
Defined.

(** X14. When finalizing returns normally, every slave of the bus is
    bound in the region table to a region with origin and size set, and,
    its size not being negative, with its origin (bit 31 cleared) a
    multiple of the rounded size: a slave on a window that is not aligned
    makes finalizing raise. *)
Theorem do_finalize_requires_aligned_slaves (self : SoC.t) (ic : option SoC.interconnect) :
  SoC.do_finalize self = Ok ic ->
  forall n s,
    In (n, s) (SoCBus.slaves (SoC.bus self)) ->
    exists r o sz,
      Dict.get n (SoCBus.regions (SoC.bus self)) = Some r /\
      SoCRegion.origin r = Some o /\ SoCRegion.size r = Some sz /\
      (0 <= sz -> window_origin o mod 2 ^ window_exponent sz = 0).
Proof.
  unfold SoC.do_finalize. intros H n s Hin.
  destruct (SoC.bus_slaves _ _) as [l|] eqn:E; [|discriminate].
  destruct (bus_slaves_inv _ _ _ E) as [_ I].
  destruct (I n s Hin) as (r & p & G & D).
  destruct (decoder_ok_inv r p D) as (o & sz & O & Sz & Hal).
  exists r, o, sz. auto.
Qed.

(** Witness of [do_finalize_requires_aligned_slaves]: the slave [rom]. *)
Lemma do_finalize_requires_aligned_slaves_witness :
  exists ic r o sz,
    SoC.do_finalize rom_soc = Ok ic /\
    Dict.get "rom" (SoCBus.regions (SoC.bus rom_soc)) = Some r /\
    SoCRegion.origin r = Some o /\ SoCRegion.size r = Some sz /\
    (0 <= sz -> window_origin o mod 2 ^ window_exponent sz = 0).
Proof.
  destruct (SoC.do_finalize rom_soc) as [ic|e] eqn:F;
    [|exfalso; vm_compute in F; discriminate F].
  destruct (do_finalize_requires_aligned_slaves rom_soc ic F "rom" (Some 1%nat)
              (or_introl eq_refl)) as (r & o & sz & G & O & Sz & Hal).
  exists ic, r, o, sz. auto.
Defined.

(** ** Tables of locations and lines *)

Lemma keys_app {V : Type} (d d' : Dict.t V) : Dict.keys (d ++ d') = Dict.keys d ++ Dict.keys d'.
Proof. unfold Dict.keys. apply map_app. Qed.

Lemma values_app {V : Type} (d d' : Dict.t V) :
  Dict.values (d ++ d') = Dict.values d ++ Dict.values d'.
Proof. unfold Dict.values. apply map_app. Qed.

Lemma NoDup_snoc {A : Type} (l : list A) (x : A) : NoDup l -> ~ In x l -> NoDup (l ++ [x]).
Proof.
  induction l as [|y l IH]; simpl; intros Hl Hx.
  - constructor; [tauto|constructor].
  - inversion Hl; subst. constructor.
    + rewrite in_app_iff. simpl. intros [H|[H|[]]]; [tauto|subst; tauto].
    + apply IH; tauto.
Qed.

Lemma table_ok_snoc (table : Dict.t Z) (bound : Z) (name : string) (loc : Z) :
  table_ok table bound ->
  Dict.mem name table = false -> ~ In loc (Dict.values table) -> 0 <= loc <= bound ->
  table_ok (table ++ [(name, loc)]) bound.
Proof.
  intros (Hk & Hv & Hb) M Hloc Hr. split; [|split].
  - rewrite keys_app. apply NoDup_snoc; [exact Hk|]. now apply mem_false_not_in.
  - rewrite values_app. apply NoDup_snoc; assumption.
  - intros n l Hin. apply in_app_iff in Hin as [Hin|[E|[]]]; [eauto|].
    inversion E; subst; exact Hr.
Qed.

Lemma table_ok_empty (bound : Z) : table_ok Dict.empty bound.
Proof. split; [constructor|split; [constructor|intros ? ? []]]. Qed.

Lemma in_values_false (n : Z) (d : Dict.t Z) :
  in_values (Some n) d = false -> ~ In n (Dict.values d).
Proof.
  unfold in_values. intros H Hin. apply existsb_eqb_In in Hin. congruence.
Qed.

Lemma first_free_lowest (values : list Z) (k : Z) (count : nat) :
  forall n,
    (forall m, n <= m < k -> In m values) -> ~ In k values ->
    n <= k < n + Z.of_nat count ->
    first_free values n count = Some k.
Proof.
  induction count as [|count IH]; intros n Hlow Hfree Hr; [lia|].
  simpl. destruct (Z.eq_dec n k) as [->|Hne].
  - destruct (existsb (Z.eqb k) values) eqn:E; [|reflexivity].
    apply existsb_eqb_In in E. contradiction.
  - assert (Hin : In n values) by (apply Hlow; lia).
    apply existsb_eqb_In in Hin. rewrite Hin. simpl.
    apply IH; auto; [intros m Hm; apply Hlow; lia | lia].
Qed.

(** What a call of [SoCCSR.add] that returned normally has done. *)
Lemma csr_add_returns (name : string) (n : option Z) (reuse : bool) (self self' : SoCCSR.t)
      (loc : Z) :
  SoCCSR.add name n reuse self = Return loc self' ->
  (reuse = true /\ self' = self /\ Dict.get name (SoCCSR.csrs self) = Some loc) \/
  (Dict.mem name (SoCCSR.csrs self) = false /\
   ~ In loc (Dict.values (SoCCSR.csrs self)) /\
   self' = SoCCSR.with_csrs self (SoCCSR.csrs self ++ [(name, loc)]) /\
   ((n = Some loc /\ 0 <= loc <= SoCCSR.n_csrs self) \/
    (n = None /\ 0 <= loc < SoCCSR.alloc_range self /\
     forall k, 0 <= k < loc -> In k (Dict.values (SoCCSR.csrs self))))).
Proof.
  unfold SoCCSR.add.
  destruct (Dict.mem name (SoCCSR.csrs self)) eqn:M.
  - destruct reuse; simpl; [|discriminate].
    destruct (Dict.get name (SoCCSR.csrs self)) as [l|] eqn:G; [|discriminate].
    intros H; inversion H; subst. left. auto.
  - rewrite andb_false_r. simpl.
    destruct (in_values n (SoCCSR.csrs self)) eqn:V; [discriminate|].
    destruct n as [n|].
    + destruct (Z.ltb_spec n 0); [discriminate|].
      destruct (Z.gtb_spec n (SoCCSR.n_csrs self)); [discriminate|].
      intros Eq; inversion Eq; subst. right. rewrite (set_fresh _ _ _ M).
      split; [reflexivity|]. split; [now apply in_values_false|]. split; [reflexivity|].
      left; split; [reflexivity|lia].
    + unfold SoCCSR.alloc.
      destruct (first_free _ 0 _) as [m|] eqn:F; [|discriminate].
      intros Eq; inversion Eq; subst. right. rewrite (set_fresh _ _ _ M).
      apply first_free_some in F as (Hr & Hfree & Hlow).
      split; [reflexivity|]. split; [exact Hfree|]. split; [reflexivity|].
      right. split; [reflexivity|]. split; [lia|exact Hlow].
Qed.

(** What a call of [SoCIRQ.add] that returned normally has done. *)
Lemma irq_add_returns (name : string) (n : option Z) (self self' : SoCIRQ.t) (line : Z) :
  SoCIRQ.add name n self = Return line self' ->
  Dict.mem name (SoCIRQ.irqs self) = false /\
  ~ In line (Dict.values (SoCIRQ.irqs self)) /\
  self' = SoCIRQ.with_irqs self (SoCIRQ.irqs self ++ [(name, line)]) /\
  ((n = Some line /\ 0 <= line <= SoCIRQ.n_irqs self) \/
   (n = None /\ 0 <= line < SoCIRQ.n_irqs self /\
    forall k, 0 <= k < line -> In k (Dict.values (SoCIRQ.irqs self)))).
Proof.
  unfold SoCIRQ.add.
  destruct (Dict.mem name (SoCIRQ.irqs self)) eqn:M; [discriminate|].
  destruct (in_values n (SoCIRQ.irqs self)) eqn:V; [discriminate|].
  destruct n as [n|].
  - destruct (Z.ltb_spec n 0); [discriminate|].
    destruct (Z.gtb_spec n (SoCIRQ.n_irqs self)); [discriminate|].
    intros Eq; inversion Eq; subst. rewrite (set_fresh _ _ _ M).
    split; [reflexivity|]. split; [now apply in_values_false|]. split; [reflexivity|].
    left; split; [reflexivity|lia].
  - unfold SoCIRQ.alloc.
    destruct (first_free _ 0 _) as [m|] eqn:F; [|discriminate].
    intros Eq; inversion Eq; subst. rewrite (set_fresh _ _ _ M).
    apply first_free_some in F as (Hr & Hfree & Hlow).
    split; [reflexivity|]. split; [exact Hfree|]. split; [reflexivity|].
    right. split; [reflexivity|]. split; [lia|exact Hlow].
Qed.

(** ** The CSR allocator, continued *)

Lemma csr_add_invariant (name : string) (n : option Z) (reuse : bool)
      (self self' : SoCCSR.t) (loc : Z) :
  (SoCCSR.data_width self = 8 \/ SoCCSR.data_width self = 32) ->
  (SoCCSR.address_width self = 14 \/ SoCCSR.address_width self = 15) ->
  SoCCSR.paging self = 0x800 ->
  SoCCSR.n_csrs self = 4 * 2 ^ SoCCSR.address_width self / SoCCSR.paging self ->
  table_ok (SoCCSR.csrs self) (SoCCSR.n_csrs self) ->
  SoCCSR.add name n reuse self = Return loc self' ->
  (SoCCSR.data_width self' = 8 \/ SoCCSR.data_width self' = 32) /\
  (SoCCSR.address_width self' = 14 \/ SoCCSR.address_width self' = 15) /\
  SoCCSR.paging self' = 0x800 /\
  SoCCSR.n_csrs self' = 4 * 2 ^ SoCCSR.address_width self' / SoCCSR.paging self' /\
  table_ok (SoCCSR.csrs self') (SoCCSR.n_csrs self').
Proof.
  intros Hd Ha Hp Hn Ht H.
  apply csr_add_returns in H as [(_ & -> & _)|(M & Hfree & -> & Hloc)]; [auto|].
  simpl. split; [exact Hd|]. split; [exact Ha|]. split; [exact Hp|]. split; [exact Hn|].
  apply table_ok_snoc; auto.
  destruct Hloc as [(_ & Hr)|(_ & Hr & _)]; [exact Hr|].
  assert (SoCCSR.alloc_range self <= SoCCSR.n_csrs self).
  { unfold SoCCSR.alloc_range. rewrite Hn, Hp.
    destruct Hd as [-> | ->], Ha as [-> | ->]; vm_compute; discriminate. }
  lia.
Qed.

Lemma csr_completed_invariant (self : SoCCSR.t) :
  csr_completed self ->
  (SoCCSR.data_width self = 8 \/ SoCCSR.data_width self = 32) /\
  (SoCCSR.address_width self = 14 \/ SoCCSR.address_width self = 15) /\
  SoCCSR.paging self = 0x800 /\
  SoCCSR.n_csrs self = 4 * 2 ^ SoCCSR.address_width self / SoCCSR.paging self /\
  table_ok (SoCCSR.csrs self) (SoCCSR.n_csrs self).
Proof.
  intros H. induction H as [dw aw al pg reserved self H|self name n reuse loc self' _ IH H].
  - revert H. unfold SoCCSR.__init__, SoCCSR.supported_data_width,
      SoCCSR.supported_address_width, SoCCSR.supported_alignment, SoCCSR.supported_paging.
    simpl existsb.
    destruct (Z.eqb_spec dw 8) as [Hd|Hd8];
      [|destruct (Z.eqb_spec dw 32) as [Hd|Hd32]; [|discriminate]];
      (destruct (Z.eqb_spec aw 14) as [Ha|Ha14];
       [|destruct (Z.eqb_spec aw 15) as [Ha|Ha15]; [|discriminate]]);
      (destruct ((al =? 32) || ((al =? 64) || false)); [|discriminate]);
      (destruct (Z.eqb_spec pg 0x800) as [Hp|]; [|discriminate]); simpl;
      match goal with |- context [for_each ?l ?b ?s] =>
        destruct (for_each l b s) as [[] s'|] eqn:F end; try discriminate;
      intros E; inversion E; subst s'; revert F;
      apply (for_each_invariant
               (fun s =>
                  (SoCCSR.data_width s = 8 \/ SoCCSR.data_width s = 32) /\
                  (SoCCSR.address_width s = 14 \/ SoCCSR.address_width s = 15) /\
                  SoCCSR.paging s = 0x800 /\
                  SoCCSR.n_csrs s = 4 * 2 ^ SoCCSR.address_width s / SoCCSR.paging s /\
                  table_ok (SoCCSR.csrs s) (SoCCSR.n_csrs s)));
      try (intros [nm loc] s s1 (A & B & C & D & T); unfold bind, ret;
           destruct (SoCCSR.add nm loc false s) as [l s2|] eqn:Ad; [|discriminate];
           intros Eq; inversion Eq; subst s2;
           exact (csr_add_invariant nm loc false s s1 l A B C D T Ad));
      (simpl; split; [auto|]; split; [auto|]; split; [auto|]; split;
       [subst; reflexivity | apply table_ok_empty]).
  - destruct IH as (A & B & C & D & T).
    exact (csr_add_invariant name n reuse self self' loc A B C D T H).
Qed.

(** X15. In every CSR allocator that its constructor returned and that
    was then driven through calls of [add] that returned normally, no
    name and no location is used twice, every location lies between [0]
    and [n_csrs], both included, and [n_csrs] is 32 or 64. *)
Theorem csr_locations_unique_and_bounded (self : SoCCSR.t) :
  csr_completed self ->
  NoDup (Dict.keys (SoCCSR.csrs self)) /\
  NoDup (Dict.values (SoCCSR.csrs self)) /\
  (forall name loc, In (name, loc) (SoCCSR.csrs self) -> 0 <= loc <= SoCCSR.n_csrs self) /\
  (SoCCSR.n_csrs self = 32 \/ SoCCSR.n_csrs self = 64).
Proof.
  intros H. destruct (csr_completed_invariant self H) as (_ & Ha & Hp & Hn & (K & V & B)).
  split; [exact K|]. split; [exact V|]. split; [exact B|].
  rewrite Hn, Hp. destruct Ha as [-> | ->]; [left|right]; reflexivity.
Qed.

(** Witness of [csr_locations_unique_and_bounded]: the allocator of the
    module's test after [add("csr0")]. *)
Lemma csr_locations_unique_and_bounded_witness :
  exists self,
    csr_completed self /\
    SoCCSR.csrs self = [("ctrl"%string, 0); ("uart"%string, 1); ("csr0"%string, 2)] /\
    NoDup (Dict.keys (SoCCSR.csrs self)) /\
    NoDup (Dict.values (SoCCSR.csrs self)) /\
    (forall name loc, In (name, loc) (SoCCSR.csrs self) -> 0 <= loc <= SoCCSR.n_csrs self) /\
    (SoCCSR.n_csrs self = 32 \/ SoCCSR.n_csrs self = 64).
Proof.
  pose (self0 := SoCCSR.mk 32 14 32 0x800 [("ctrl"%string, 0); ("uart"%string, 1)] 32).
  pose (self := SoCCSR.with_csrs self0
                  [("ctrl"%string, 0); ("uart"%string, 1); ("csr0"%string, 2)]).
  assert (H : csr_completed self).
  { apply (csr_completed_add self0 "csr0" None false 2 self); [|reflexivity].
    apply (csr_completed_init 32 14 32 0x800 ctrl_uart). reflexivity. }
  exists self. split; [exact H|]. split; [reflexivity|].
  exact (csr_locations_unique_and_bounded self H).
Defined.

(** X16. A call of [add] that raises leaves the allocator as it was, on
    the CSR allocator and on the IRQ allocator alike. *)
Theorem add_failure_changes_nothing :
  (forall name n reuse (self self' : SoCCSR.t) e,
      SoCCSR.add name n reuse self = Raise e self' -> self' = self) /\
  (forall name n (self self' : SoCIRQ.t) e,
      SoCIRQ.add name n self = Raise e self' -> self' = self).
Proof.
  split.
  - intros name n reuse self self' e. unfold SoCCSR.add, SoCCSR.alloc.
    destruct (negb (reuse && Dict.mem name (SoCCSR.csrs self))).
    + destruct (Dict.mem name (SoCCSR.csrs self)); [intros H; inversion H; reflexivity|].
      destruct (in_values n (SoCCSR.csrs self)); [intros H; inversion H; reflexivity|].
      destruct n as [n|].
      * destruct (n <? 0); [intros H; inversion H; reflexivity|].
        destruct (n >? SoCCSR.n_csrs self); [intros H; inversion H; reflexivity|discriminate].
      * destruct (first_free _ 0 _); [discriminate|intros H; inversion H; reflexivity].
    + destruct (Dict.get name (SoCCSR.csrs self));
        [discriminate|intros H; inversion H; reflexivity].
  - intros name n self self' e. unfold SoCIRQ.add, SoCIRQ.alloc.
    destruct (Dict.mem name (SoCIRQ.irqs self)); [intros H; inversion H; reflexivity|].
    destruct (in_values n (SoCIRQ.irqs self)); [intros H; inversion H; reflexivity|].
    destruct n as [n|].
    + destruct (n <? 0); [intros H; inversion H; reflexivity|].
      destruct (n >? SoCIRQ.n_irqs self); [intros H; inversion H; reflexivity|discriminate].
    + destruct (first_free _ 0 _); [discriminate|intros H; inversion H; reflexivity].
Qed.

(** Witness of [add_failure_changes_nothing]: a location in use on the
    CSR allocator, a negative line on the IRQ allocator. *)
Lemma add_failure_changes_nothing_witness :
  exists (c' : SoCCSR.t) (i' : SoCIRQ.t),
    SoCCSR.add "csr1" (Some 0) false
      (SoCCSR.mk 32 14 32 0x800 [("ctrl"%string, 0); ("uart"%string, 1)] 32)
    = Raise LocationInUseError c' /\
    c' = SoCCSR.mk 32 14 32 0x800 [("ctrl"%string, 0); ("uart"%string, 1)] 32 /\
    SoCIRQ.add "timer" (Some (-1)) (SoCIRQ.mk 32 [("uart"%string, 1)])
    = Raise RangeError i' /\
    i' = SoCIRQ.mk 32 [("uart"%string, 1)].
Proof.
  pose (c := SoCCSR.mk 32 14 32 0x800 [("ctrl"%string, 0); ("uart"%string, 1)] 32).
  pose (i := SoCIRQ.mk 32 [("uart"%string, 1)]).
  destruct add_failure_changes_nothing as [Hc Hi].
  exists c, i.
  split; [reflexivity|].
  split; [exact (Hc "csr1"%string (Some 0) false c c LocationInUseError eq_refl)|].
  split; [reflexivity|].
  exact (Hi "timer"%string (Some (-1)) i i RangeError eq_refl).
Defined.



Lemma first_locations_S (k : nat) :
  first_locations (S k) = first_locations k ++ [Z.of_nat k].
Proof. unfold first_locations. rewrite seq_S, map_app. reflexivity. Qed.

Lemma first_locations_length (k : nat) : List.length (first_locations k) = k.
Proof. unfold first_locations. now rewrite length_map, length_seq. Qed.

Lemma in_first_locations (k : nat) (m : Z) :
  In m (first_locations k) <-> 0 <= m < Z.of_nat k.
Proof.
  unfold first_locations. rewrite in_map_iff. split.
  - intros (i & <- & Hi). apply in_seq in Hi. lia.
  - intros Hm. exists (Z.to_nat m). split; [lia|]. apply in_seq. lia.
Qed.

Lemma values_combine {V : Type} (names : list string) (vs : list V) :
  List.length names = List.length vs -> Dict.values (combine names vs) = vs.
Proof.
  unfold Dict.values. revert vs. induction names as [|n names IH]; intros [|v vs] H;
    simpl in *; try discriminate; auto.
  f_equal. apply IH. lia.
Qed.

Lemma csr_add_next (name : string) (pre : list string) (self : SoCCSR.t) :
  SoCCSR.csrs self = combine pre (first_locations (List.length pre)) ->
  ~ In name pre ->
  SoCCSR.add name None false self =
  if Z.of_nat (List.length pre) <? SoCCSR.alloc_range self
  then Return (Z.of_nat (List.length pre))
              (SoCCSR.with_csrs self
                 (combine (pre ++ [name]) (first_locations (List.length (pre ++ [name])))))
  else Raise OutOfSpaceError self.
Proof.
  intros Hc Hname.
  assert (Hk : Dict.keys (SoCCSR.csrs self) = pre).
  { rewrite Hc. apply keys_combine. now rewrite first_locations_length. }
  assert (Hv : Dict.values (SoCCSR.csrs self) = first_locations (List.length pre)).
  { rewrite Hc. apply values_combine. now rewrite first_locations_length. }
  assert (M : Dict.mem name (SoCCSR.csrs self) = false).
  { apply mem_false_not_in. now rewrite Hk. }
  unfold SoCCSR.add, SoCCSR.alloc. rewrite M. simpl. rewrite Hv.
  destruct (Z.ltb_spec (Z.of_nat (List.length pre)) (SoCCSR.alloc_range self)) as [Hlt|Hge].
  - rewrite (first_free_lowest _ (Z.of_nat (List.length pre))).
    + rewrite (set_fresh _ _ _ M), Hc. f_equal. f_equal.
      rewrite length_app. simpl.
      replace (List.length pre + 1)%nat with (S (List.length pre)) by lia.
      rewrite first_locations_S, combine_append by now rewrite first_locations_length.
      reflexivity.
    + intros m Hm. apply in_first_locations. lia.
    + rewrite in_first_locations. lia.
    + lia.
  - rewrite first_free_none; [reflexivity|].
    intros m Hm. apply in_first_locations. lia.
Qed.

Lemma csr_add_all_fills (names : list string) :
  forall (self : SoCCSR.t) (pre : list string),
    SoCCSR.csrs self = combine pre (first_locations (List.length pre)) ->
    NoDup (pre ++ names) ->
    Z.of_nat (List.length (pre ++ names)) <= SoCCSR.alloc_range self ->
    csr_add_all names self =
    Return tt (SoCCSR.with_csrs self
                 (combine (pre ++ names) (first_locations (List.length (pre ++ names))))).
Proof.
  unfold csr_add_all. induction names as [|name names IH]; intros self pre Hc Hnd Hlen.
  - simpl. unfold ret. rewrite app_nil_r, <- Hc. destruct self; reflexivity.
  - cbn [for_each]. unfold bind at 1. unfold bind at 1.
    rewrite (csr_add_next name pre self Hc).
    + rewrite length_app in Hlen. simpl in Hlen.
      destruct (Z.ltb_spec (Z.of_nat (List.length pre)) (SoCCSR.alloc_range self)); [|lia].
      unfold ret.
      replace (pre ++ name :: names) with ((pre ++ [name]) ++ names)
        by (rewrite <- app_assoc; reflexivity).
      rewrite (IH _ (pre ++ [name])).
      * destruct self; reflexivity.
      * reflexivity.
      * rewrite <- app_assoc. exact Hnd.
      * rewrite <- app_assoc, length_app. simpl. unfold SoCCSR.alloc_range in *. simpl. lia.
    + apply NoDup_remove_2 in Hnd. intros Hin. apply Hnd. apply in_or_app. now left.
Qed.

(** X18. On an allocator with an empty table, adding different names
    without locations, no more than the range [alloc] scans, never fails
    and gives them the locations [0], [1], [2], ... in the order of the
    calls.  When the names are as many as that range, one more [add] of a
    new name without location fails for lack of space and changes
    nothing. *)
Theorem csr_auto_fill (names : list string) (self : SoCCSR.t) :
  SoCCSR.csrs self = [] ->
  NoDup names ->
  Z.of_nat (List.length names) <= SoCCSR.alloc_range self ->
  let filled :=
    SoCCSR.with_csrs self (combine names (first_locations (List.length names))) in
  csr_add_all names self = Return tt filled /\
  (Z.of_nat (List.length names) = SoCCSR.alloc_range self ->
   forall name, ~ In name names ->
                SoCCSR.add name None false filled = Raise OutOfSpaceError filled).
Proof.
  intros Hc Hnd Hlen filled. split.
  - apply (csr_add_all_fills names self []); auto.
  - intros Hfull name Hname.
    rewrite (csr_add_next name names filled); [|reflexivity|exact Hname].
    destruct (Z.ltb_spec (Z.of_nat (List.length names)) (SoCCSR.alloc_range filled))
      as [Hlt|]; [|reflexivity].
    unfold filled, SoCCSR.alloc_range in Hlt. simpl in Hlt.
    unfold SoCCSR.alloc_range in Hfull. lia.
Qed.

(** Witness of [csr_auto_fill]: eight names on an 8-bit CSR bus, whose
    [alloc] scans eight locations. *)
Lemma csr_auto_fill_witness :
  csr_add_all eight_names csr8 =
    Return tt (SoCCSR.with_csrs csr8 (combine eight_names (first_locations 8))) /\
  SoCCSR.add "extra" None false
    (SoCCSR.with_csrs csr8 (combine eight_names (first_locations 8)))
  = Raise OutOfSpaceError (SoCCSR.with_csrs csr8 (combine eight_names (first_locations 8))).
Proof.
  assert (Hnd : NoDup eight_names).
  { unfold eight_names, auto_names. simpl.
    repeat (constructor; [simpl; intros H;
                          repeat (destruct H as [H|H]; [discriminate H|]); exact H|]).
    constructor. }
  destruct (csr_auto_fill eight_names csr8 eq_refl Hnd) as [A B].
  - vm_compute. discriminate.
  - split; [exact A|]. apply B; [reflexivity|].
    simpl. intros H. repeat (destruct H as [H|H]; [discriminate H|]). exact H.
Defined.

Lemma csr_add_keeps_bindings (name : string) (n : option Z) (reuse : bool)
      (self self' : SoCCSR.t) (loc : Z) :
  SoCCSR.add name n reuse self = Return loc self' ->
  Dict.get name (SoCCSR.csrs self') = Some loc /\
  forall k v, Dict.get k (SoCCSR.csrs self) = Some v -> Dict.get k (SoCCSR.csrs self') = Some v.
Proof.
  intros H. apply csr_add_returns in H as [(_ & -> & G)|(M & _ & -> & _)]; [auto|].
  simpl. rewrite <- (set_fresh _ _ _ M). split; [apply get_set_same|].
  intros k v G. rewrite get_set_other; [exact G|].
  intros ->. apply mem_false_get in M. congruence.
Qed.

Lemma csr_reserved_bound (reserved : list (string * option Z)) :
  forall self self',
    for_each reserved
      (fun '(name, n) => bind (SoCCSR.add name n false) (fun _ => ret tt)) self
    = Return tt self' ->
    (forall k v, Dict.get k (SoCCSR.csrs self) = Some v ->
                 Dict.get k (SoCCSR.csrs self') = Some v) /\
    (forall name n, In (name, Some n) reserved ->
                    Dict.get name (SoCCSR.csrs self') = Some n).
Proof.
  induction reserved as [|[nm n0] reserved IH]; intros self self'; simpl.
  - unfold ret. intros H; inversion H; subst. split; [auto|intros ? ? []].
  - unfold bind at 1. unfold bind at 1.
    destruct (SoCCSR.add nm n0 false self) as [loc s1|] eqn:A; [|discriminate].
    unfold ret at 1. intros H. destruct (IH _ _ H) as [Hkeep Hres].
    destruct (csr_add_keeps_bindings _ _ _ _ _ _ A) as [Gnew Gold].
    split; [intros k v G; apply Hkeep, Gold, G|].
    intros name n [E|Hin]; [|apply Hres; exact Hin].
    inversion E; subst. apply Hkeep.
    apply csr_add_returns in A as [(Hf & _)|(_ & _ & _ & [(E1 & _)|(E1 & _)])];
      try discriminate.
    inversion E1; subst. exact Gnew.
Qed.

(** X19. When the CSR constructor returns, every reserved entry given
    with a location is in the table under its name with that location. *)
Theorem csr_init_binds_reserved data_width address_width alignment paging reserved_csrs self :
  SoCCSR.__init__ data_width address_width alignment paging reserved_csrs = Ok self ->
  forall name n, In (name, Some n) reserved_csrs ->
                 Dict.get name (SoCCSR.csrs self) = Some n.
Proof.
  unfold SoCCSR.__init__.
  destruct (negb (existsb _ SoCCSR.supported_data_width)); [discriminate|].
  destruct (negb (existsb _ SoCCSR.supported_address_width)); [discriminate|].
  destruct (negb (existsb _ SoCCSR.supported_alignment)); [discriminate|].
  destruct (negb (existsb _ SoCCSR.supported_paging)); [discriminate|].
  match goal with |- context [for_each ?l ?b ?s] => destruct (for_each l b s) as [[] s'|] eqn:F end;
    [|discriminate].
  intros H; inversion H; subst s'. apply (csr_reserved_bound _ _ _ F).
Qed.

(** Witness of [csr_init_binds_reserved]: [uart] reserved at [1]. *)
Lemma csr_init_binds_reserved_witness :
  exists self,
    SoCCSR.__init__ 32 14 32 0x800 ctrl_uart = Ok self /\
    Dict.get "uart" (SoCCSR.csrs self) = Some 1.
Proof.
  pose (self := SoCCSR.mk 32 14 32 0x800 [("ctrl"%string, 0); ("uart"%string, 1)] 32).
  exists self. split; [reflexivity|].
  apply (csr_init_binds_reserved 32 14 32 0x800 ctrl_uart self eq_refl "uart"%string 1).
  right; left; reflexivity.
Defined.

(** ** The IRQ allocator, continued *)

Lemma irq_add_invariant (name : string) (n : option Z) (self self' : SoCIRQ.t) (line : Z) :
  SoCIRQ.n_irqs self <= 32 ->
  table_ok (SoCIRQ.irqs self) (SoCIRQ.n_irqs self) ->
  SoCIRQ.add name n self = Return line self' ->
  SoCIRQ.n_irqs self' <= 32 /\ table_ok (SoCIRQ.irqs self') (SoCIRQ.n_irqs self').
Proof.
  intros Hn Ht H. apply irq_add_returns in H as (M & Hfree & -> & Hline).
  simpl. split; [exact Hn|]. apply table_ok_snoc; auto.
  destruct Hline as [(_ & Hr)|(_ & Hr & _)]; lia.
Qed.

(** X20. In every IRQ allocator that its constructor returned and that
    was then driven through calls of [add] that returned normally, no
    name and no line is used twice, [n_irqs] is at most 32, and every
    line lies between [0] and [n_irqs], both included. *)
Theorem irq_lines_unique_and_bounded (self : SoCIRQ.t) :
  irq_completed self ->
  SoCIRQ.n_irqs self <= 32 /\
  NoDup (Dict.keys (SoCIRQ.irqs self)) /\
  NoDup (Dict.values (SoCIRQ.irqs self)) /\
  forall name line, In (name, line) (SoCIRQ.irqs self) -> 0 <= line <= SoCIRQ.n_irqs self.
Proof.
  intros H.
  change (SoCIRQ.n_irqs self <= 32 /\ table_ok (SoCIRQ.irqs self) (SoCIRQ.n_irqs self)).
  induction H as [n_irqs reserved self H|self name n line self' _ IH H].
  - revert H. unfold SoCIRQ.__init__.
    destruct (Z.gtb_spec n_irqs 32) as [|Hle]; [discriminate|].
    match goal with |- context [for_each ?l ?b ?s] =>
      destruct (for_each l b s) as [[] s'|] eqn:F end; [|discriminate].
    intros E; inversion E; subst s'. revert F.
    apply (for_each_invariant
             (fun s => SoCIRQ.n_irqs s <= 32 /\ table_ok (SoCIRQ.irqs s) (SoCIRQ.n_irqs s))).
    + intros [nm ln] s s1 [A T]. unfold bind, ret.
      destruct (SoCIRQ.add nm ln s) as [l s2|] eqn:Ad; [|discriminate].
      intros Eq; inversion Eq; subst s2. exact (irq_add_invariant nm ln s s1 l A T Ad).
    + simpl. split; [lia | apply table_ok_empty].
  - destruct IH as [A T]. exact (irq_add_invariant name n self self' line A T H).
Qed.

(** Witness of [irq_lines_unique_and_bounded]: [uart] reserved at line
    [1], then [timer] added. *)
Lemma irq_lines_unique_and_bounded_witness :
  exists self,
    irq_completed self /\
    SoCIRQ.irqs self = [("uart"%string, 1); ("timer"%string, 0)] /\
    SoCIRQ.n_irqs self <= 32 /\
    NoDup (Dict.keys (SoCIRQ.irqs self)) /\
    NoDup (Dict.values (SoCIRQ.irqs self)) /\
    forall name line, In (name, line) (SoCIRQ.irqs self) -> 0 <= line <= SoCIRQ.n_irqs self.
Proof.
  pose (self0 := SoCIRQ.mk 32 [("uart"%string, 1)]).
  pose (self := SoCIRQ.mk 32 [("uart"%string, 1); ("timer"%string, 0)]).
  assert (H : irq_completed self).
  { apply (irq_completed_add self0 "timer" None 0 self); [|reflexivity].
    apply (irq_completed_init 32 [("uart"%string, Some 1)]). reflexivity. }
  exists self. split; [exact H|]. split; [reflexivity|].
  exact (irq_lines_unique_and_bounded self H).
Defined.

(** X21. [SoCIRQ.add] of a new name at a line that no entry holds:
    a line from [0] to [n_irqs], both included, is registered at the end
    of the table; a negative line fails with the range error; a line
    above [n_irqs] fails with the [AttributeError] that the message of
    that branch runs into. *)
Theorem irq_add_explicit_outcomes (name : string) (n : Z) (self : SoCIRQ.t) :
  Dict.mem name (SoCIRQ.irqs self) = false ->
  in_values (Some n) (SoCIRQ.irqs self) = false ->
  (0 <= n <= SoCIRQ.n_irqs self ->
   SoCIRQ.add name (Some n) self =
   Return n (SoCIRQ.with_irqs self (SoCIRQ.irqs self ++ [(name, n)]))) /\
  (n < 0 -> SoCIRQ.add name (Some n) self = Raise RangeError self) /\
  (0 <= n -> SoCIRQ.n_irqs self < n ->
   SoCIRQ.add name (Some n) self = Raise (PyAttributeError "n_csrs") self).
Proof.
  intros M V. unfold SoCIRQ.add. rewrite M, V, (set_fresh _ _ _ M).
  destruct (Z.ltb_spec n 0); destruct (Z.gtb_spec n (SoCIRQ.n_irqs self));
    repeat split; intros; try lia; reflexivity.
Qed.

(** Witness of [irq_add_explicit_outcomes]: lines [32] and [33] on an
    allocator of 32 lines. *)
Lemma irq_add_explicit_outcomes_witness :
  SoCIRQ.add "timer" (Some 32) (SoCIRQ.mk 32 [("uart"%string, 1)]) =
    Return 32 (SoCIRQ.mk 32 [("uart"%string, 1); ("timer"%string, 32)]) /\
  SoCIRQ.add "timer" (Some 33) (SoCIRQ.mk 32 [("uart"%string, 1)]) =
    Raise (PyAttributeError "n_csrs") (SoCIRQ.mk 32 [("uart"%string, 1)]).
Proof.
  pose (self := SoCIRQ.mk 32 [("uart"%string, 1)]).
  split.
  - refine (proj1 (irq_add_explicit_outcomes "timer" 32 self eq_refl eq_refl) _).
    simpl; lia.
  - refine (proj2 (proj2 (irq_add_explicit_outcomes "timer" 33 self eq_refl eq_refl)) _ _);
      simpl; lia.
Defined.

(** X22. For a new name and no line given, [SoCIRQ.add] allocates the
    lowest line below [n_irqs] that no entry holds.  Whenever [line] is
    that line (free, below [n_irqs], every lower line held), the call
    returns [line] and puts the pair at the end of the table; a call that
    returns has returned such a line; and when every line below [n_irqs]
    is held the call fails for lack of space and changes nothing. *)
Theorem irq_add_allocates_lowest_free (name : string) (self : SoCIRQ.t) :
  Dict.mem name (SoCIRQ.irqs self) = false ->
  (forall line,
      0 <= line < SoCIRQ.n_irqs self ->
      ~ In line (Dict.values (SoCIRQ.irqs self)) ->
      (forall k, 0 <= k < line -> In k (Dict.values (SoCIRQ.irqs self))) ->
      SoCIRQ.add name None self =
      Return line (SoCIRQ.with_irqs self (SoCIRQ.irqs self ++ [(name, line)]))) /\
  (forall line self',
      SoCIRQ.add name None self = Return line self' ->
      0 <= line < SoCIRQ.n_irqs self /\
      ~ In line (Dict.values (SoCIRQ.irqs self)) /\
      (forall k, 0 <= k < line -> In k (Dict.values (SoCIRQ.irqs self))) /\
      SoCIRQ.irqs self' = SoCIRQ.irqs self ++ [(name, line)]) /\
  ((forall k, 0 <= k < SoCIRQ.n_irqs self -> In k (Dict.values (SoCIRQ.irqs self))) ->
   SoCIRQ.add name None self = Raise OutOfSpaceError self).
Proof.
  intros M. split; [|split].
  - intros line Hr Hfree Hlow. unfold SoCIRQ.add, SoCIRQ.alloc. rewrite M. simpl.
    rewrite (first_free_lowest _ line); [|intros m Hm; apply Hlow; lia|exact Hfree|lia].
    rewrite (set_fresh _ _ _ M). reflexivity.
  - intros line self' H.
    apply irq_add_returns in H as (_ & Hfree & -> & [(E & _)|(_ & Hr & Hlow)]);
      [discriminate|].
    simpl. repeat split; auto; lia.
  - intros Hfull. unfold SoCIRQ.add, SoCIRQ.alloc. rewrite M. simpl.
    rewrite first_free_none; [reflexivity|].
    intros m Hm. apply Hfull. lia.
Qed.

(** Witness of [irq_add_allocates_lowest_free]: with lines [1] and [0]
    taken of 32, [timer] gets line [2]; with both lines of an allocator
    of two taken, it gets none. *)
Lemma irq_add_allocates_lowest_free_witness :
  SoCIRQ.add "timer" None (SoCIRQ.mk 32 [("uart"%string, 1); ("eth"%string, 0)]) =
  Return 2 (SoCIRQ.mk 32 [("uart"%string, 1); ("eth"%string, 0); ("timer"%string, 2)]) /\
  SoCIRQ.add "timer" None (SoCIRQ.mk 2 [("uart"%string, 1); ("eth"%string, 0)]) =
  Raise OutOfSpaceError (SoCIRQ.mk 2 [("uart"%string, 1); ("eth"%string, 0)]).
Proof.
  pose (wide := SoCIRQ.mk 32 [("uart"%string, 1); ("eth"%string, 0)]).
  pose (full := SoCIRQ.mk 2 [("uart"%string, 1); ("eth"%string, 0)]).
  split.
  - refine (proj1 (irq_add_allocates_lowest_free "timer" wide eq_refl) 2 _ _ _).
    + simpl; lia.
    + simpl. intros [H|[H|[]]]; discriminate H.
    + intros k Hk. simpl. assert (k = 0 \/ k = 1) as [-> | ->] by lia; auto.
  - refine (proj2 (proj2 (irq_add_allocates_lowest_free "timer" full eq_refl)) _).
    intros k Hk. simpl in *. assert (k = 0 \/ k = 1) as [-> | ->] by lia; auto.
Defined.

(** ** A system as constructed *)

Lemma add_region_keeps_registries (name : string) (region : value_arg)
      (self self' : SoCBus.t) :
  SoCBus.add_region name region self = Return tt self' ->
  SoCBus.masters self' = SoCBus.masters self /\ SoCBus.slaves self' = SoCBus.slaves self.
Proof.
  intros H. apply add_region_returns in H as (r & _ & H).
  destruct H as [[_ ->]|[(_ & _ & o & sz & _ & _ & ->)|(_ & _ & _ & ->)]]; auto.
Qed.

Lemma bus_init_registries standard data_width address_width timeout reserved_regions self :
  SoCBus.__init__ standard data_width address_width timeout reserved_regions = Ok self ->
  SoCBus.masters self = [] /\ SoCBus.slaves self = [].
Proof.
  unfold SoCBus.__init__.
  destruct (negb (existsb _ SoCBus.supported_standard)); [discriminate|].
  destruct (negb (existsb _ SoCBus.supported_data_width)); [discriminate|].
  destruct (negb (existsb _ SoCBus.supported_address_width)); [discriminate|].
  match goal with |- context [for_each ?l ?b ?s] => destruct (for_each l b s) as [[] s'|] eqn:F end;
    [|discriminate].
  intros H; inversion H; subst s'. revert F.
  apply (for_each_invariant (fun s => SoCBus.masters s = [] /\ SoCBus.slaves s = [])).
  - intros [name region] s s1 [Hm Hs] A.
    apply add_region_keeps_registries in A as [Em Es]. rewrite Em, Es. auto.
  - auto.
Qed.

(** X23. A system that [SoC.__init__] has returned has no master and no
    slave on its bus, whatever regions were reserved, so finalizing it
    straight away returns normally and builds no interconnect. *)
Theorem soc_fresh_finalize
        bus_standard bus_data_width bus_address_width bus_timeout bus_reserved_regions
        csr_data_width csr_address_width csr_alignment csr_paging csr_reserved_csrs
        irq_n_irqs irq_reserved_irqs (self : SoC.t) :
  SoC.__init__ bus_standard bus_data_width bus_address_width bus_timeout bus_reserved_regions
               csr_data_width csr_address_width csr_alignment csr_paging csr_reserved_csrs
               irq_n_irqs irq_reserved_irqs = Ok self ->
  SoCBus.masters (SoC.bus self) = [] /\
  SoCBus.slaves (SoC.bus self) = [] /\
  SoC.do_finalize self = Ok None.
Proof.
  unfold SoC.__init__.
  destruct (SoCBus.__init__ _ _ _ _ _) as [bus|] eqn:B; [|discriminate]. cbn [rbind].
  destruct (SoCCSR.__init__ _ _ _ _ _) as [csr|]; [|discriminate]. cbn [rbind].
  destruct (SoCIRQ.__init__ _ _) as [irq|]; [|discriminate]. cbn [rbind].
  intros H; inversion H; subst self. simpl.
  destruct (bus_init_registries _ _ _ _ _ _ B) as [Hm Hs].
  split; [exact Hm|]. split; [exact Hs|].
  unfold SoC.do_finalize. simpl. rewrite Hm, Hs. reflexivity.
Qed.

(** Witness of [soc_fresh_finalize]: the defaults of the constructor with
    the reserved entries of the module's test. *)
Lemma soc_fresh_finalize_witness :
  exists self,
    SoC.__init__ "wishbone" 32 32 1000000 main_reserved 32 14 32 0x800 ctrl_uart
                 32 [("uart"%string, Some 1)] = Ok self /\
    SoCBus.regions (SoC.bus self) = SoCBus.regions main_bus /\
    SoC.do_finalize self = Ok None.
Proof.
  pose (self := SoC.mk main_bus
                  (SoCCSR.mk 32 14 32 0x800 [("ctrl"%string, 0); ("uart"%string, 1)] 32)
                  (SoCIRQ.mk 32 [("uart"%string, 1)])).
  destruct (soc_fresh_finalize "wishbone" 32 32 1000000 main_reserved 32 14 32 0x800 ctrl_uart
              32 [("uart"%string, Some 1)] self eq_refl) as (_ & _ & F).
  exists self. split; [reflexivity|]. split; [reflexivity|exact F].
Defined.

(** ** Slaves *)

(** C10, as the code has it.  [add_slave] with a region calls
    [add_region] under the slave's name, given or made up, before it
    looks at the slave registry.  When [add_region] returns and the name
    is already a slave, the call fails on the duplicate name and leaves
    the bus as [add_region] left it, with both registries as before the
    call.  For a [SoCLinkerRegion] that is the bus of before the call,
    since [add_region] stores nothing for it.  For a [SoCRegion] the
    table by then binds the name to a new region: the given one when it
    has an origin, and otherwise the region that [alloc_region] returned
    for its size and cacheability. *)
Theorem add_slave_duplicate_region_table
        (name : option string) (slave : handle) (region : value_arg) (self self1 : SoCBus.t) :
  Dict.mem (slave_name name self) (SoCBus.slaves self) = true ->
  SoCBus.add_region (slave_name name self) region self = Return tt self1 ->
  SoCBus.add_slave name slave (Some region) self =
    Raise (DuplicateNameError (slave_name name self)) self1 /\
  SoCBus.slaves self1 = SoCBus.slaves self /\
  SoCBus.masters self1 = SoCBus.masters self /\
  exists r,
    region = VRegion r /\
    ((SoCRegion.kind r = SoCRegion.Linker /\ self1 = self) \/
     (SoCRegion.kind r = SoCRegion.Physical /\
      exists r',
        SoCBus.regions self1 = Dict.set (slave_name name self) r' (SoCBus.regions self) /\
        Dict.get (slave_name name self) (SoCBus.regions self1) = Some r' /\
        SoCRegion.kind r' = SoCRegion.Physical /\
        SoCRegion.size r' = SoCRegion.size r /\
        SoCRegion.cached r' = SoCRegion.cached r /\
        (forall o, SoCRegion.origin r = Some o -> r' = r) /\
        (SoCRegion.origin r = None ->
         (exists o, SoCRegion.origin r' = Some o) /\
         SoCBus.alloc_region (SoCRegion.size r) (SoCRegion.cached r) self = Ok r'))).
Proof.
  intros Hdup Hadd.
  destruct (add_region_keeps_registries _ _ _ _ Hadd) as [Hm Hs].
  split; [|split; [exact Hs|split; [exact Hm|]]].
  - unfold SoCBus.add_slave.
    assert (E : bind (SoCBus.add_region (slave_name name self) region)
                  (fun _ =>
                     bind (gets (fun s => Dict.mem (slave_name name self) (SoCBus.slaves s)))
                       (fun in_slaves =>
                          if in_slaves then throw (DuplicateNameError (slave_name name self))
                          else modify (fun s =>
                                 SoCBus.with_slaves s
                                   (Dict.set (slave_name name self) slave (SoCBus.slaves s)))))
                  self
                = Raise (DuplicateNameError (slave_name name self)) self1).
    { unfold bind at 1. rewrite Hadd. unfold bind, gets, throw. rewrite Hs, Hdup.
      reflexivity. }
    destruct name; exact E.
  - apply add_region_returns in Hadd as (r & -> & H). exists r. split; [reflexivity|].
    destruct H as [[K ->]|[(K & O & o & sz & Sz & A & ->)|(K & [o O] & _ & ->)]].
    + left. auto.
    + right. split; [exact K|]. eexists. simpl.
      split; [reflexivity|]. split; [apply get_set_same|]. simpl.
      split; [reflexivity|]. split; [symmetry; exact Sz|]. split; [reflexivity|].
      split; [intros o' O'; congruence|]. intros _. split; [eauto | exact A].
    + right. split; [exact K|]. exists r. simpl.
      split; [reflexivity|]. split; [apply get_set_same|].
      split; [exact K|]. split; [reflexivity|]. split; [reflexivity|].
      split; [reflexivity|]. intros O'; congruence.
Qed.

(** Witness of [add_slave_duplicate_region_table]: a second slave [rom]
    with a region that has no origin, and an unnamed slave on a bus whose
    one slave is called [slave1]. *)
Lemma add_slave_duplicate_region_table_witness :
  (exists self1,
      SoCBus.add_slave (Some "rom"%string) None
        (Some (VRegion (SoCRegion.mk SoCRegion.Physical None (Some 1024) true))) rom_slave_bus
      = Raise (DuplicateNameError "rom") self1 /\
      SoCBus.slaves self1 = SoCBus.slaves rom_slave_bus /\
      Dict.get "rom" (SoCBus.regions rom_slave_bus) =
        Some (SoCRegion.mk SoCRegion.Physical (Some 1792) (Some 1024) true) /\
      Dict.get "rom" (SoCBus.regions self1) =
        Some (SoCRegion.mk SoCRegion.Physical (Some 0) (Some 1024) true)) /\
  (exists self1,
      SoCBus.add_slave None None
        (Some (VRegion (SoCRegion.mk SoCRegion.Physical (Some 0x2000) (Some 0x1000) true)))
        slave1_bus
      = Raise (DuplicateNameError "slave1") self1 /\
      SoCBus.slaves self1 = SoCBus.slaves slave1_bus /\
      Dict.get "slave1" (SoCBus.regions self1) =
        Some (SoCRegion.mk SoCRegion.Physical (Some 0x2000) (Some 0x1000) true)).
Proof.
  split.
  - pose (self1 := SoCBus.with_regions rom_slave_bus
                     (Dict.set "rom" (SoCRegion.mk SoCRegion.Physical (Some 0) (Some 1024) true)
                               (SoCBus.regions rom_slave_bus))).
    destruct (add_slave_duplicate_region_table (Some "rom"%string) None
                (VRegion (SoCRegion.mk SoCRegion.Physical None (Some 1024) true))
                rom_slave_bus self1 eq_refl eq_refl) as (A & B & _).
    exists self1. split; [exact A|]. split; [exact B|]. split; reflexivity.
  - pose (self1 := SoCBus.with_regions slave1_bus
                     (Dict.set "slave1"
                        (SoCRegion.mk SoCRegion.Physical (Some 0x2000) (Some 0x1000) true)
                        (SoCBus.regions slave1_bus))).
    destruct (add_slave_duplicate_region_table None None
                (VRegion (SoCRegion.mk SoCRegion.Physical (Some 0x2000) (Some 0x1000) true))
                slave1_bus self1 eq_refl eq_refl) as (A & B & _).
    exists self1. split; [exact A|]. split; [exact B|]. reflexivity.
Defined.

(** C10, as the claim states it, fails: a second slave [rom] given a
    linker region is refused on the duplicate name with the bus, region
    table included, exactly as it was before the call; the table has not
    been given the new region. *)
Lemma add_slave_duplicate_linker_atomic :
  let linker := SoCRegion.mk SoCRegion.Linker (Some 0x20000000) (Some 0x1000) true in
  completed rom_slave_bus /\
  SoCBus.add_slave (Some "rom"%string) None (Some (VRegion linker)) rom_slave_bus =
    Raise (DuplicateNameError "rom") rom_slave_bus /\
  Dict.get "rom" (SoCBus.regions rom_slave_bus) =
    Some (SoCRegion.mk SoCRegion.Physical (Some 1792) (Some 1024) true) /\
  ~ In linker (Dict.values (SoCBus.regions rom_slave_bus)).
Proof.
  split; [|split; [reflexivity|split; [reflexivity|]]].
  - apply (completed_call main_bus
             (AddSlave (Some "rom"%string) None
                (Some (VRegion (SoCRegion.mk SoCRegion.Physical None (Some 1024) true))))).
    + apply (completed_init "wishbone" 32 32 1000000 main_reserved). reflexivity.
    + reflexivity.
  - simpl. intros [H|[H|[]]]; discriminate H.
Qed.
